(** * apply_gain: scaling a buffer of 16-bit samples by a float gain

    A shallow embedding of [src/audio_filter/audio_filter.cpp]:

<<
    void apply_gain(short* samples, size_t length, float gain) {
        for (size_t i = 0; i < length; ++i) {
            int sample = static_cast<int>(samples[i] * gain);
            if (sample > 32767) sample = 32767;
            if (sample < -32768) sample = -32768;
            samples[i] = static_cast<short>(sample);
        }
    }
>>

    - [short], [int] and [size_t] values are integers ([Z], [N]) with the
      wrap-around of the narrowing cast and of [++i] written out;
    - [float] is IEEE-754 binary32, taken from the Standard Library's
      [SpecFloat] at precision 24 and maximal exponent 128 (round to nearest,
      ties to even), i.e. the expression [samples[i] * gain] is evaluated in
      [float] as on a target with [FLT_EVAL_METHOD == 0];
    - the array [samples] points to is a [list Z]; reading or writing past its
      end is undefined behaviour, as is converting to [int] a float whose
      truncation does not fit in [int] (C++ [conv.fpint]); both stop the
      execution with the outcome [Undefined];
    - the loop is run with fuel, one unit per iteration, and every access to
      the array is recorded in a trace. *)

From Stdlib Require Import ZArith NArith QArith Qpower Qround Bool Lia.
From Stdlib Require Import Floats.SpecFloat.
From stdpp Require Import base list.

Local Open Scope Z_scope.

(** ** Machine integers *)

Module Int.

Definition SHRT_MIN : Z := -32768.
Definition SHRT_MAX : Z := 32767.
Definition INT_MIN : Z := -2147483648.
Definition INT_MAX : Z := 2147483647.
Definition SIZE_MOD : N := (2 ^ 64)%N.

Definition is_short (z : Z) : Prop := SHRT_MIN <= z <= SHRT_MAX.
Definition is_int (z : Z) : Prop := INT_MIN <= z <= INT_MAX.
Definition is_intb (z : Z) : bool := (INT_MIN <=? z) && (z <=? INT_MAX).

(** [static_cast<short>(z)] on an [int]: the value modulo 2^16, read as a
    signed 16-bit number. *)
Definition static_cast_short (z : Z) : Z := (z + 32768) mod 65536 - 32768.

(** [++i] on a [size_t]. *)
Definition size_t_incr (i : N) : N := ((i + 1) mod SIZE_MOD)%N.

End Int.

(** ** binary32 floats *)

Module Float32.

Definition prec : Z := 24.
Definition emax : Z := 128.

Definition float32 : Type := spec_float.

Definition valid (f : float32) : bool := valid_binary prec emax f.

Definition is_finite (f : float32) : bool :=
  match f with
  | S754_zero _ | S754_finite _ _ _ => true
  | S754_infinity _ | S754_nan => false
  end.

(** Conversion [int -> float] (round to nearest even; exact below 2^24). *)
Definition of_int (z : Z) : float32 := binary_normalize prec emax z 0 false.

(** The product of two floats, rounded to binary32. *)
Definition mul (x y : float32) : float32 := SFmul prec emax x y.

(** The integer part of a finite float, fraction discarded: the mantissa
    shifted by the exponent (to the right when it is negative), with the
    sign put back. *)
Definition truncate (f : float32) : Z :=
  match f with
  | S754_finite sg m e => cond_Zopp sg (Z.shiftl (Zpos m) e)
  | _ => 0
  end.

(** [static_cast<int>(f)]: truncation toward zero; no result when [f] is a
    NaN or an infinity, or when the truncated value is not an [int]. *)
Definition to_int (f : float32) : option Z :=
  if is_finite f && Int.is_intb (truncate f) then Some (truncate f) else None.

(** The rational number a finite float stands for. *)
Definition to_Q (f : float32) : Q :=
  match f with
  | S754_finite sg m e => (inject_Z (cond_Zopp sg (Zpos m)) * Qpower 2 e)%Q
  | _ => 0%Q
  end.

(** Some constants, as [(sign, mantissa, exponent)]. *)
Definition zero : float32 := S754_zero false.
Definition one : float32 := S754_finite false 8388608 (-23).
Definition two : float32 := S754_finite false 8388608 (-22).
Definition half : float32 := S754_finite false 8388608 (-24).

(** 0.7f, the binary32 number nearest to 0.7: 11744051 / 2^24. *)
Definition f0_7 : float32 := S754_finite false 11744051 (-24).

(** 100000.0f. *)
Definition f100000 : float32 := S754_finite false 12800000 (-7).

End Float32.

Import Float32.

(** Truncation toward zero of a rational. *)
Definition Qtruncate (q : Q) : Z := Z.quot (Qnum q) (Zpos (Qden q)).

(** ** The machine: one array, the accesses made to it, and failure *)

Inductive access : Type :=
  | Load (i : N)
  | Store (i : N).

Record machine : Type := Machine {
  buffer : list Z;        (* the array [samples] points to *)
  trace : list access     (* accesses so far, oldest first *)
}.

Inductive outcome (A : Type) : Type :=
  | Ok (a : A) (m : machine)
  | Undefined                (* undefined behaviour was reached *)
  | OutOfFuel.               (* the iteration budget was used up *)

Arguments Ok {A} a m.
Arguments Undefined {A}.
Arguments OutOfFuel {A}.

Definition M (A : Type) : Type := machine -> outcome A.

Definition ret {A} (a : A) : M A := fun m => Ok a m.

Definition bind {A B} (c : M A) (k : A -> M B) : M B :=
  fun m =>
    match c m with
    | Ok a m' => k a m'
    | Undefined => Undefined
    | OutOfFuel => OutOfFuel
    end.

Definition undefined {A} : M A := fun _ => Undefined.
Definition out_of_fuel {A} : M A := fun _ => OutOfFuel.

Declare Scope machine_scope.
Delimit Scope machine_scope with M.
Notation "x <- c ;; k" := (bind c (fun x => k))
  (at level 100, c at next level, right associativity) : machine_scope.
Notation "c ;; k" := (bind c (fun _ => k))
  (at level 100, right associativity) : machine_scope.

(** [samples[i]] read. *)
Definition load (i : N) : M Z :=
  fun m =>
    match buffer m !! N.to_nat i with
    | Some s => Ok s (Machine (buffer m) (trace m ++ [Load i]))
    | None => Undefined
    end.

(** [samples[i] = v]. *)
Definition store (i : N) (v : Z) : M unit :=
  fun m =>
    match buffer m !! N.to_nat i with
    | Some _ => Ok tt (Machine (<[N.to_nat i := v]> (buffer m)) (trace m ++ [Store i]))
    | None => Undefined
    end.

(** [static_cast<int>(f)]. *)
Definition static_cast_int (f : float32) : M Z :=
  match to_int f with
  | Some z => ret z
  | None => undefined
  end.

(** ** The function *)

Section ApplyGain.

Local Open Scope machine_scope.

(** The body of the loop at index [i]. *)
Definition loop_body (i : N) (gain : float32) : M unit :=
  s <- load i ;;
  sample <- static_cast_int (mul (of_int s) gain) ;;
  let sample := if sample >? 32767 then 32767 else sample in
  let sample := if sample <? -32768 then -32768 else sample in
  store i (Int.static_cast_short sample).

(** [for (; i < length; ++i) body], at most [fuel] iterations. *)
Fixpoint for_loop (fuel : nat) (i length : N) (gain : float32) : M unit :=
  if (i <? length)%N then
    match fuel with
    | O => out_of_fuel
    | S fuel' =>
        loop_body i gain ;;
        for_loop fuel' (Int.size_t_incr i) length gain
    end
  else ret tt.

Definition apply_gain_fuel (fuel : nat) (samples : list Z) (length : N)
    (gain : float32) : outcome unit :=
  for_loop fuel 0 length gain (Machine samples []).

(** The call, with as many iterations allowed as [length] asks for. *)
Definition apply_gain (samples : list Z) (length : N) (gain : float32)
    : outcome unit :=
  apply_gain_fuel (N.to_nat length) samples length gain.

End ApplyGain.

(** The call returned, leaving [out] in the array after the accesses [tr]. *)
Definition returns (o : outcome unit) (out : list Z) (tr : list access) : Prop :=
  o = Ok tt (Machine out tr).

(** ** What one iteration and one pass compute *)

(** The two [if]s of the body. *)
Definition clamp (sample : Z) : Z :=
  let sample := if sample >? 32767 then 32767 else sample in
  if sample <? -32768 then -32768 else sample.

(** The value the body stores for the sample [s], when it stores one. *)
Definition scaled (gain : float32) (s : Z) : option Z :=
  match to_int (mul (of_int s) gain) with
  | Some z => Some (Int.static_cast_short (clamp z))
  | None => None
  end.

(** The first [n] elements of [l] scaled, the others kept; nothing when [l]
    is shorter than [n] or a conversion is undefined. *)
Fixpoint scale_prefix (gain : float32) (n : nat) (l : list Z) : option (list Z) :=
  match n with
  | O => Some l
  | S n' =>
      match l with
      | [] => None
      | s :: l' =>
          match scaled gain s, scale_prefix gain n' l' with
          | Some v, Some r => Some (v :: r)
          | _, _ => None
          end
      end
  end.

(** The accesses of [n] iterations starting at index [i]. *)
Fixpoint pass_trace (i : N) (n : nat) : list access :=
  match n with
  | O => []
  | S n' => Load i :: Store i :: pass_trace (N.succ i) n'
  end.

(** The index an access touches. *)
Definition access_index (a : access) : N :=
  match a with Load i | Store i => i end.

(** ** Auxiliary definitions for the proofs *)

(** [m * 2^e <= B], over the rationals, without leaving the integers. *)
Definition scaled_le (m e B : Z) : Prop :=
  m * 2 ^ Z.max e 0 <= B * 2 ^ Z.max (- e) 0.

(** [P] on the [2^k] integers from [lo] on. *)
Fixpoint forall_block (P : Z -> bool) (k : nat) (lo : Z) : bool :=
  match k with
  | O => P lo
  | S k' => forall_block P k' lo && forall_block P k' (lo + 2 ^ Z.of_nat k')
  end.

(** [P] on every [short]. *)
Definition forall_short (P : Z -> bool) : bool :=
  forall_block P 16 Int.SHRT_MIN.

(** The conversion of a [short] to [float] loses nothing: 0 becomes +0.0, and
    any other [s] a float of the same sign whose mantissa is [|s|] shifted
    left. *)
Definition of_int_exactb (z : Z) : bool :=
  match of_int z with
  | S754_zero sg => (z =? 0) && negb sg
  | S754_finite sg m e =>
      negb (z =? 0) && Bool.eqb sg (z <? 0) && (e <=? 0) &&
      (Zpos m =? Z.abs z * 2 ^ (- e))
  | _ => false
  end.

(** -1.0f, the gain of a phase inversion. *)
Definition minus_one : float32 := S754_finite true 8388608 (-23).

(** Round to nearest, ties to even, of [m / 2^n]. *)
Definition rne (m n : Z) : Z :=
  match 2 * (m mod 2 ^ n) ?= 2 ^ n with
  | Lt => m / 2 ^ n
  | Eq => if Z.even (m / 2 ^ n) then m / 2 ^ n else m / 2 ^ n + 1
  | Gt => m / 2 ^ n + 1
  end.

(** The exponent a mantissa is rounded at, and the mantissa it is rounded
    to. *)
Definition target_exponent (m : positive) (e : Z) : Z :=
  Z.max (Zpos (digits2_pos m) + e - 24) (-149).

Definition rounded_mantissa (m : positive) (e : Z) : Z :=
  rne (Zpos m * 2 ^ Z.max (e - target_exponent m e) 0)
      (Z.max (target_exponent m e - e) 0).

(** [m1 * 2^e1 <= m2 * 2^e2] for two positive floats, in the integers. *)
Definition float_le (m1 : positive) (e1 : Z) (m2 : positive) (e2 : Z) : Prop :=
  Zpos m1 * 2 ^ (e1 - Z.min e1 e2) <= Zpos m2 * 2 ^ (e2 - Z.min e1 e2).

(** * Lemmas *)

(** ** Machine integers: facts *)

Lemma static_cast_short_range (z : Z) : Int.is_short (Int.static_cast_short z).
Proof.
  unfold Int.is_short, Int.static_cast_short, Int.SHRT_MIN, Int.SHRT_MAX.
  pose proof (Z.mod_pos_bound (z + 32768) 65536 ltac:(lia)). lia.
Qed.

Lemma static_cast_short_id (z : Z) :
  Int.is_short z -> Int.static_cast_short z = z.
Proof.
  unfold Int.is_short, Int.static_cast_short, Int.SHRT_MIN, Int.SHRT_MAX.
  intros Hz. rewrite Z.mod_small by lia. lia.
Qed.

Lemma clamp_id (z : Z) : Int.is_short z -> clamp z = z.
Proof.
  unfold clamp, Int.is_short, Int.SHRT_MIN, Int.SHRT_MAX. intros Hz.
  destruct (Z.gtb_spec z 32767); [lia|].
  destruct (Z.ltb_spec z (-32768)); lia.
Qed.

Lemma clamp_above (z : Z) : 32767 < z -> clamp z = 32767.
Proof.
  unfold clamp. intros Hz.
  destruct (Z.gtb_spec z 32767); [reflexivity | lia].
Qed.

Lemma clamp_below (z : Z) : z < -32768 -> clamp z = -32768.
Proof.
  unfold clamp. intros Hz.
  destruct (Z.gtb_spec z 32767); [lia|].
  destruct (Z.ltb_spec z (-32768)); [reflexivity | lia].
Qed.

Lemma size_t_incr_succ (i length : N) :
  (i < length)%N -> (length < Int.SIZE_MOD)%N -> Int.size_t_incr i = N.succ i.
Proof.
  intros Hi Hlen. unfold Int.size_t_incr.
  rewrite N.mod_small by lia. lia.
Qed.

(** ** One iteration *)

Lemma loop_body_eq (i : N) (gain : float32) (m : machine) :
  loop_body i gain m =
    match buffer m !! N.to_nat i with
    | Some s =>
        match scaled gain s with
        | Some v =>
            Ok tt (Machine (<[N.to_nat i := v]> (buffer m))
                           (trace m ++ [Load i; Store i]))
        | None => Undefined
        end
    | None => Undefined
    end.
Proof.
  unfold loop_body, bind, load, scaled, static_cast_int.
  destruct (buffer m !! N.to_nat i) as [s|] eqn:Hs; [|reflexivity].
  destruct (to_int (mul (of_int s) gain)) as [z|]; [|reflexivity].
  unfold ret, store, clamp. cbn [buffer trace]. rewrite Hs.
  rewrite <- app_assoc. reflexivity.
Qed.

(** ** The loop *)

Section Loop.

Variables (gain : float32) (len : N).
Hypothesis len_size_t : (len < Int.SIZE_MOD)%N.

(** With [n] iterations left and at least that much fuel, the loop scales
    the next [n] elements, whatever came before index [i]. *)
Lemma for_loop_eq (n : nat) :
  forall (fuel : nat) (i : N) (pre l : list Z) (tr : list access),
    N.to_nat len = (N.to_nat i + n)%nat ->
    length pre = N.to_nat i ->
    (n <= fuel)%nat ->
    for_loop fuel i len gain (Machine (pre ++ l) tr) =
      match scale_prefix gain n l with
      | Some r => Ok tt (Machine (pre ++ r) (tr ++ pass_trace i n))
      | None => Undefined
      end.
Proof.
  induction n as [|n IH]; intros fuel i pre l tr Hlen Hpre Hfuel.
  - assert (Hi : (i <? len)%N = false) by (apply N.ltb_ge; lia).
    destruct fuel; cbn [for_loop scale_prefix pass_trace];
      rewrite Hi, app_nil_r; reflexivity.
  - assert (Hi : (i < len)%N) by lia.
    destruct fuel as [|fuel]; [lia|].
    cbn [for_loop]. apply N.ltb_lt in Hi as Hib. rewrite Hib.
    unfold bind. rewrite loop_body_eq. cbn [buffer trace].
    rewrite <- Hpre, (lookup_app_r pre l) by lia.
    replace (length pre - length pre)%nat with O by lia.
    destruct l as [|s l]; [reflexivity|]. cbn [lookup list_lookup scale_prefix].
    destruct (scaled gain s) as [v|]; [|reflexivity].
    rewrite (insert_app_r_alt pre) by lia.
    replace (length pre - length pre)%nat with O by lia. cbn [insert list_insert].
    rewrite (size_t_incr_succ i len Hi len_size_t).
    replace (pre ++ v :: l) with ((pre ++ [v]) ++ l)
      by (rewrite <- app_assoc; reflexivity).
    rewrite (IH fuel (N.succ i) (pre ++ [v]) l); [| lia | rewrite length_app; simpl; lia | lia].
    destruct (scale_prefix gain n l) as [r|]; [|reflexivity].
    cbn [pass_trace]. rewrite <- !app_assoc. reflexivity.
Qed.

(** With less fuel than iterations left, the loop does not finish. *)
Lemma for_loop_short_fuel (fuel : nat) :
  forall (n : nat) (i : N) (pre l : list Z) (tr : list access),
    N.to_nat len = (N.to_nat i + n)%nat ->
    length pre = N.to_nat i ->
    (fuel < n)%nat ->
    for_loop fuel i len gain (Machine (pre ++ l) tr) =
      match scale_prefix gain fuel l with
      | Some _ => OutOfFuel
      | None => Undefined
      end.
Proof.
  induction fuel as [|fuel IH]; intros n i pre l tr Hlen Hpre Hfuel;
    assert (Hi : (i < len)%N) by lia; apply N.ltb_lt in Hi as Hib;
    cbn [for_loop scale_prefix]; rewrite Hib; [reflexivity|].
  destruct n as [|n]; [lia|].
  unfold bind. rewrite loop_body_eq. cbn [buffer trace].
  rewrite <- Hpre, (lookup_app_r pre l) by lia.
  replace (length pre - length pre)%nat with O by lia.
  destruct l as [|s l]; [reflexivity|]. cbn [lookup list_lookup].
  destruct (scaled gain s) as [v|]; [|reflexivity].
  rewrite (insert_app_r_alt pre) by lia.
  replace (length pre - length pre)%nat with O by lia. cbn [insert list_insert].
  rewrite (size_t_incr_succ i len Hi len_size_t).
  replace (pre ++ v :: l) with ((pre ++ [v]) ++ l)
    by (rewrite <- app_assoc; reflexivity).
  rewrite (IH n (N.succ i) (pre ++ [v]) l); [| lia | rewrite length_app; simpl; lia | lia].
  destruct (scale_prefix gain fuel l); reflexivity.
Qed.

End Loop.

(** The call, whatever the fuel, as long as it covers [length] iterations. *)
Lemma apply_gain_fuel_eq (fuel : nat) (samples : list Z) (len : N) (gain : float32) :
  (len < Int.SIZE_MOD)%N ->
  (N.to_nat len <= fuel)%nat ->
  apply_gain_fuel fuel samples len gain =
    match scale_prefix gain (N.to_nat len) samples with
    | Some r => Ok tt (Machine r (pass_trace 0 (N.to_nat len)))
    | None => Undefined
    end.
Proof.
  intros Hlen Hfuel. unfold apply_gain_fuel.
  apply (for_loop_eq gain len Hlen (N.to_nat len) fuel 0%N [] samples []);
    [simpl; lia | reflexivity | exact Hfuel].
Qed.

Lemma apply_gain_eq (samples : list Z) (len : N) (gain : float32) :
  (len < Int.SIZE_MOD)%N ->
  apply_gain samples len gain =
    match scale_prefix gain (N.to_nat len) samples with
    | Some r => Ok tt (Machine r (pass_trace 0 (N.to_nat len)))
    | None => Undefined
    end.
Proof.
  intros Hlen. unfold apply_gain. apply apply_gain_fuel_eq; [exact Hlen | lia].
Qed.

Lemma apply_gain_returns_inv (samples : list Z) (len : N) (gain : float32)
    (out : list Z) (tr : list access) :
  (len < Int.SIZE_MOD)%N ->
  returns (apply_gain samples len gain) out tr ->
  scale_prefix gain (N.to_nat len) samples = Some out /\
  tr = pass_trace 0 (N.to_nat len).
Proof.
  intros Hlen Hret. unfold returns in Hret. rewrite apply_gain_eq in Hret by exact Hlen.
  destruct (scale_prefix gain (N.to_nat len) samples) as [r|]; [|discriminate].
  injection Hret as -> ->. split; reflexivity.
Qed.

(** ** Facts about a pass *)

Section ScalePrefix.

Variable gain : float32.

Lemma scale_prefix_length (n : nat) :
  forall l r : list Z,
    scale_prefix gain n l = Some r -> length r = length l /\ (n <= length l)%nat.
Proof.
  induction n as [|n IH]; intros l r H; cbn [scale_prefix] in H.
  - injection H as ->. split; [reflexivity | lia].
  - destruct l as [|s l]; [discriminate|].
    destruct (scaled gain s) as [v|]; [|discriminate].
    destruct (scale_prefix gain n l) as [r'|] eqn:Hr; [|discriminate].
    injection H as <-. destruct (IH l r' Hr). simpl. split; lia.
Qed.

Lemma scale_prefix_lookup_lt (n : nat) :
  forall (l r : list Z) (j : nat),
    scale_prefix gain n l = Some r -> (j < n)%nat ->
    exists s v, l !! j = Some s /\ scaled gain s = Some v /\ r !! j = Some v.
Proof.
  induction n as [|n IH]; intros l r j H Hj; [lia|]. cbn [scale_prefix] in H.
  destruct l as [|s l]; [discriminate|].
  destruct (scaled gain s) as [v|] eqn:Hv; [|discriminate].
  destruct (scale_prefix gain n l) as [r'|] eqn:Hr; [|discriminate].
  injection H as <-. destruct j as [|j].
  - exists s, v. repeat split; assumption.
  - apply (IH l r' j Hr). lia.
Qed.

Lemma scale_prefix_lookup_ge (n : nat) :
  forall (l r : list Z) (j : nat),
    scale_prefix gain n l = Some r -> (n <= j)%nat -> r !! j = l !! j.
Proof.
  induction n as [|n IH]; intros l r j H Hj; cbn [scale_prefix] in H.
  - injection H as ->. reflexivity.
  - destruct l as [|s l]; [discriminate|].
    destruct (scaled gain s) as [v|]; [|discriminate].
    destruct (scale_prefix gain n l) as [r'|] eqn:Hr; [|discriminate].
    injection H as <-. destruct j as [|j]; [lia|].
    apply (IH l r' j Hr). lia.
Qed.

Lemma scale_prefix_defined (n : nat) :
  forall l : list Z,
    (n <= length l)%nat ->
    (forall (j : nat) (s : Z), (j < n)%nat -> l !! j = Some s -> is_Some (scaled gain s)) ->
    is_Some (scale_prefix gain n l).
Proof.
  induction n as [|n IH]; intros l Hn Hdef; cbn [scale_prefix]; [eexists; reflexivity|].
  destruct l as [|s l]; [simpl in Hn; lia|].
  destruct (Hdef O s ltac:(lia) eq_refl) as [v ->].
  destruct (IH l) as [r ->]; [simpl in Hn; lia | | eexists; reflexivity].
  intros j s' Hj Hs'. apply (Hdef (S j) s'); [lia | exact Hs'].
Qed.

(** A pass that maps every sample of the prefix to itself changes nothing. *)
Lemma scale_prefix_fixed (n : nat) :
  forall l : list Z,
    (n <= length l)%nat ->
    (forall (j : nat) (s : Z), (j < n)%nat -> l !! j = Some s -> scaled gain s = Some s) ->
    scale_prefix gain n l = Some l.
Proof.
  induction n as [|n IH]; intros l Hn Hfix; cbn [scale_prefix]; [reflexivity|].
  destruct l as [|s l]; [simpl in Hn; lia|].
  rewrite (Hfix O s ltac:(lia) eq_refl), (IH l); [reflexivity | simpl in Hn; lia |].
  intros j s' Hj Hs'. apply (Hfix (S j) s'); [lia | exact Hs'].
Qed.

(** A pass depends on the prefix only. *)
Lemma scale_prefix_take (n : nat) :
  forall l r : list Z,
    scale_prefix gain n l = Some r ->
    scale_prefix gain n (take n l) = Some (take n r) /\ drop n r = drop n l.
Proof.
  induction n as [|n IH]; intros l r H; cbn [scale_prefix] in H.
  - injection H as ->. split; reflexivity.
  - destruct l as [|s l]; [discriminate|].
    destruct (scaled gain s) as [v|] eqn:Hv; [|discriminate].
    destruct (scale_prefix gain n l) as [r'|] eqn:Hr; [|discriminate].
    injection H as <-. destruct (IH l r' Hr) as [Ht Hd].
    cbn [take drop scale_prefix]. rewrite Hv, Ht. split; [reflexivity | exact Hd].
Qed.

End ScalePrefix.

Lemma scale_prefix_shorter (gain : float32) (n k : nat) (l r : list Z) :
  scale_prefix gain n l = Some r -> (k <= n)%nat -> is_Some (scale_prefix gain k l).
Proof.
  intros H Hk. apply scale_prefix_defined.
  - pose proof (proj2 (scale_prefix_length gain n l r H)). lia.
  - intros j s Hj Hs.
    destruct (scale_prefix_lookup_lt gain n l r j H ltac:(lia)) as (s' & v & Hs' & Hv & _).
    rewrite Hs in Hs'. injection Hs' as <-. eexists; exact Hv.
Qed.

(** ** Facts about the trace of a pass *)

Lemma pass_trace_length (n : nat) : forall i : N, length (pass_trace i n) = (2 * n)%nat.
Proof.
  induction n as [|n IH]; intros i; cbn [pass_trace]; [reflexivity|].
  simpl. rewrite IH. lia.
Qed.

Lemma pass_trace_index (n : nat) :
  forall (i : N) (a : access),
    a ∈ pass_trace i n -> (i <= access_index a < i + N.of_nat n)%N.
Proof.
  induction n as [|n IH]; intros i a Ha; cbn [pass_trace] in Ha.
  - apply elem_of_nil in Ha. contradiction.
  - apply elem_of_cons in Ha as [-> | Ha]; [simpl; lia|].
    apply elem_of_cons in Ha as [-> | Ha]; [simpl; lia|].
    apply IH in Ha. lia.
Qed.

(** ** binary32 rounding: facts

    [SpecFloat] rounds a mantissa by shifting it right, one bit at a time,
    while it remembers the last bit shifted out and whether any earlier one
    was set, and then rounds to nearest, ties to even. The facts below bound
    the result of this rounding. *)

Section Rounding.

(** A mantissa of [d] binary digits lies in [2^(d-1), 2^d). *)
Lemma digits2_pos_bounds (m : positive) :
  2 ^ (Zpos (digits2_pos m) - 1) <= Zpos m < 2 ^ Zpos (digits2_pos m).
Proof.
  induction m as [m IH|m IH|]; cbn [digits2_pos].
  - rewrite Pos2Z.inj_succ.
    replace (Z.succ (Zpos (digits2_pos m)) - 1)
      with (Z.succ (Zpos (digits2_pos m) - 1)) by lia.
    rewrite !Z.pow_succ_r by lia. lia.
  - rewrite Pos2Z.inj_succ.
    replace (Z.succ (Zpos (digits2_pos m)) - 1)
      with (Z.succ (Zpos (digits2_pos m) - 1)) by lia.
    rewrite !Z.pow_succ_r by lia. lia.
  - simpl. lia.
Qed.

(** [SpecFloat]'s iterator, as an iteration over [nat]. *)
Lemma iter_pos_nat {A : Type} (f : A -> A) (p : positive) :
  forall x : A, SpecFloat.iter_pos f p x = Nat.iter (Pos.to_nat p) f x.
Proof.
  induction p as [p IH|p IH|]; intros x; cbn [SpecFloat.iter_pos].
  - rewrite !IH, Pos2Nat.inj_xI.
    replace (S (2 * Pos.to_nat p)) with (Pos.to_nat p + S (Pos.to_nat p))%nat by lia.
    rewrite Nat.iter_add, Nat.iter_succ_r. reflexivity.
  - rewrite !IH, Pos2Nat.inj_xO.
    replace (2 * Pos.to_nat p)%nat with (Pos.to_nat p + Pos.to_nat p)%nat by lia.
    rewrite Nat.iter_add. reflexivity.
  - reflexivity.
Qed.

(** One right shift: the mantissa is halved, the bit shifted out is kept,
    and the earlier ones are summed up in the sticky bit. *)
Lemma shr_1_eq (m : Z) (r s : bool) :
  0 <= m ->
  shr_1 (Build_shr_record m r s) = Build_shr_record (m / 2) (Z.odd m) (r || s).
Proof.
  intros Hm. destruct m as [|p|p]; [reflexivity| |lia].
  destruct p as [p|p|]; cbn [shr_1 Z.odd].
  - rewrite Pos2Z.inj_xI. f_equal. apply (Z.div_unique _ _ _ 1); lia.
  - rewrite Pos2Z.inj_xO. f_equal. apply (Z.div_unique _ _ _ 0); lia.
  - reflexivity.
Qed.

(** [n] right shifts of a mantissa: the quotient by [2^n], and no bit
    remembered when the division is exact. *)
Lemma shr_iter (m : Z) (n : nat) :
  0 <= m ->
  let res := Nat.iter n shr_1 (Build_shr_record m false false) in
  shr_m res = m / 2 ^ Z.of_nat n /\
  (m mod 2 ^ Z.of_nat n = 0 -> shr_r res = false /\ shr_s res = false).
Proof.
  intros Hm. induction n as [|n IH]; cbn zeta.
  - simpl. rewrite Z.div_1_r. split; [reflexivity | split; reflexivity].
  - rewrite Nat.iter_succ. cbn zeta in IH. destruct IH as [IHm IHf].
    destruct (Nat.iter n shr_1 (Build_shr_record m false false)) as [m' r' s'] eqn:E.
    cbn [shr_m shr_r shr_s] in *.
    assert (Hpow : 0 < 2 ^ Z.of_nat n) by (apply Z.pow_pos_nonneg; lia).
    assert (Hm' : 0 <= m') by (subst m'; apply Z.div_pos; lia).
    rewrite shr_1_eq by exact Hm'. cbn [shr_m shr_r shr_s].
    rewrite Nat2Z.inj_succ, Z.pow_succ_r by lia.
    split.
    + subst m'. rewrite Z.div_div by lia. f_equal. lia.
    + intros Hmod.
      assert (Hmod' : m mod 2 ^ Z.of_nat n = 0).
      { apply Z.mod_divide in Hmod; [|lia]. apply Z.mod_divide; [lia|].
        destruct Hmod as [q Hq]. exists (q * 2). lia. }
      destruct (IHf Hmod') as [-> ->]. split; [|reflexivity].
      apply Z.mod_divide in Hmod; [|lia]. destruct Hmod as [q Hq].
      subst m'. rewrite Hq.
      replace (q * (2 * 2 ^ Z.of_nat n)) with (q * 2 * 2 ^ Z.of_nat n) by lia.
      rewrite Z.div_mul by lia. rewrite Z.mul_comm, Z.odd_mul. reflexivity.
Qed.

(** The same for [shr], which shifts by [n] when [n] is positive and not at
    all otherwise. *)
Lemma shr_eq (m e n : Z) :
  0 <= m ->
  exists r s : bool,
    shr (Build_shr_record m false false) e n =
      (Build_shr_record (m / 2 ^ Z.max n 0) r s, e + Z.max n 0) /\
    (m mod 2 ^ Z.max n 0 = 0 -> r = false /\ s = false).
Proof.
  intros Hm. destruct n as [|p|p]; cbn [shr].
  - exists false, false. rewrite Z.max_id. simpl. rewrite Z.div_1_r, Z.add_0_r. auto.
  - rewrite iter_pos_nat.
    pose proof (shr_iter m (Pos.to_nat p) Hm) as H. cbn zeta in H.
    destruct (Nat.iter (Pos.to_nat p) shr_1 (Build_shr_record m false false)) as [m' r s].
    cbn [shr_m shr_r shr_s] in H. rewrite positive_nat_Z in H. destruct H as [-> Hf].
    exists r, s. rewrite Z.max_l by lia. auto.
  - exists false, false. rewrite Z.max_r by lia. simpl. rewrite Z.div_1_r, Z.add_0_r. auto.
Qed.

(** Rounding a shifted mantissa adds at most one, and nothing when no bit
    was lost. *)
Lemma round_nearest_even_bounds (m : Z) (r s : bool) :
  let m' := round_nearest_even m (loc_of_shr_record (Build_shr_record m r s)) in
  m <= m' <= m + 1 /\ (r = false -> s = false -> m' = m).
Proof.
  destruct r, s; cbn; try destruct (Z.even m); split; try lia;
    intros; try discriminate; reflexivity.
Qed.

(** A float below [2^24] has its digits below the binary point of bit 24. *)
Lemma scaled_le_digits (m : positive) (e B : Z) :
  B < 2 ^ 24 -> scaled_le (Zpos m) e B -> Zpos (digits2_pos m) + e <= 24.
Proof.
  unfold scaled_le. intros HB Hle.
  pose proof (digits2_pos_bounds m) as [Hlo _].
  set (d := Zpos (digits2_pos m)) in *.
  destruct (Z_lt_le_dec 24 (d + e)) as [Hgt|]; [exfalso|lia].
  destruct (Z_lt_le_dec e 0) as [He|He].
  - rewrite Z.max_r, Z.max_l, Z.pow_0_r in Hle by lia.
    assert (2 ^ (24 + - e) <= 2 ^ (d - 1)) by (apply Z.pow_le_mono_r; lia).
    rewrite Z.pow_add_r in H by lia.
    assert (0 < 2 ^ (- e)) by (apply Z.pow_pos_nonneg; lia). nia.
  - rewrite Z.max_l, Z.max_r, Z.pow_0_r in Hle by lia.
    assert (2 ^ 24 <= 2 ^ (d - 1 + e)) by (apply Z.pow_le_mono_r; lia).
    rewrite Z.pow_add_r in H by lia.
    assert (0 < 2 ^ e) by (apply Z.pow_pos_nonneg; lia). nia.
Qed.

Lemma fexp_eq (e : Z) : fexp prec emax e = Z.max (e - 24) (-149).
Proof. reflexivity. Qed.

(** Rounding to nearest does not cross a bound that is itself an integer
    below 2^24. *)
Lemma binary_round_aux_le (sx : bool) (m : positive) (e B : Z) :
  0 <= B < 2 ^ 24 ->
  scaled_le (Zpos m) e B ->
  binary_round_aux prec emax sx (Zpos m) e loc_Exact = S754_zero sx \/
  exists (m' : positive) (e' : Z),
    binary_round_aux prec emax sx (Zpos m) e loc_Exact = S754_finite sx m' e' /\
    scaled_le (Zpos m') e' B.
Proof.
  intros HB Hle.
  pose proof (scaled_le_digits m e B (proj2 HB) Hle) as Hd.
  pose proof (Pos2Z.is_pos (digits2_pos m)) as Hdpos.
  unfold binary_round_aux, shr_fexp. cbn [shr_record_of_loc Zdigits2].
  rewrite fexp_eq.
  remember (Z.max (Zpos (digits2_pos m) + e - 24) (-149)) as e1 eqn:He1.
  destruct (shr_eq (Zpos m) e (e1 - e) ltac:(lia)) as (r & s & -> & Hexact).
  cbn [shr_m].
  remember (Z.max (e1 - e) 0) as n eqn:Hn.
  remember (Zpos m / 2 ^ n) as m1 eqn:Hm1.
  assert (Hpn : 0 < 2 ^ n) by (apply Z.pow_pos_nonneg; lia).
  assert (Hm1pos : 0 <= m1) by (subst m1; apply Z.div_pos; lia).
  destruct (round_nearest_even_bounds m1 r s) as [Hm2 Hm2x].
  remember (round_nearest_even m1 (loc_of_shr_record (Build_shr_record m1 r s))) as m2 eqn:Hm2def.
  remember (e + n) as e2 eqn:He2.
  (* the rounded mantissa is below the bound, at the exponent [e2] *)
  assert (Hle2 : scaled_le m2 e2 B).
  { unfold scaled_le in *. destruct (Z_lt_le_dec 0 (e1 - e)) as [Hpos|Hneg].
    - rewrite Z.max_r, Z.max_l, Z.pow_0_r, Z.mul_1_r by lia.
      rewrite Z.max_r, Z.max_l, Z.pow_0_r, Z.mul_1_r in Hle by lia.
      replace (- e) with (- e2 + n) in Hle by lia.
      rewrite Z.pow_add_r in Hle by lia.
      assert (Hk : m1 <= B * 2 ^ (- e2)).
      { subst m1. apply Z.div_le_upper_bound; lia. }
      destruct (Z.eq_dec m1 (B * 2 ^ (- e2))) as [Heq|Hne]; [|lia].
      assert (Hmod : Zpos m mod 2 ^ n = 0).
      { pose proof (Z.div_mod (Zpos m) (2 ^ n) ltac:(lia)) as Hdm.
        pose proof (Z.mod_pos_bound (Zpos m) (2 ^ n) Hpn).
        rewrite <- Hm1 in Hdm. nia. }
      destruct (Hexact Hmod) as [-> ->]. rewrite (Hm2x eq_refl eq_refl). lia.
    - assert (Hn0 : n = 0) by lia.
      assert (Hmod : Zpos m mod 2 ^ n = 0) by (rewrite Hn0; apply Z.mod_1_r).
      destruct (Hexact Hmod) as [-> ->]. rewrite (Hm2x eq_refl eq_refl).
      rewrite Hm1, Hn0, Z.div_1_r. replace e2 with e by lia. exact Hle. }
  assert (Hm2pos : 0 <= m2) by lia.
  assert (He2' : e2 <= 23) by lia.
  clear Hm2 Hm2x Hexact Hm2def Hm1 He2 Hle Hd.
  destruct m2 as [|q|q]; [ | | lia].
  - left. cbn [Zdigits2].
    destruct (shr_eq 0 e2 (fexp prec emax (0 + e2) - e2) ltac:(lia)) as (r' & s' & -> & _).
    cbn [shr_m]. rewrite Z.div_0_l; [reflexivity|].
    apply Z.pow_nonzero; lia.
  - cbn [Zdigits2].
    pose proof (scaled_le_digits q e2 B (proj2 HB) Hle2) as Hd2.
    pose proof (Pos2Z.is_pos (digits2_pos q)) as Hdpos2.
    rewrite fexp_eq.
    remember (Z.max (Zpos (digits2_pos q) + e2 - 24) (-149)) as e3 eqn:He3.
    destruct (shr_eq (Zpos q) e2 (e3 - e2) ltac:(lia)) as (r' & s' & -> & _).
    cbn [shr_m].
    remember (Z.max (e3 - e2) 0) as n2 eqn:Hn2.
    assert (Hpn2 : 0 < 2 ^ n2) by (apply Z.pow_pos_nonneg; lia).
    assert (Hm3 : 0 <= Zpos q / 2 ^ n2) by (apply Z.div_pos; lia).
    assert (Hle3 : scaled_le (Zpos q / 2 ^ n2) (e2 + n2) B).
    { unfold scaled_le in *. destruct (Z_lt_le_dec 0 (e3 - e2)) as [Hpos|Hneg].
      - rewrite Z.max_r, Z.max_l, Z.pow_0_r, Z.mul_1_r by lia.
        rewrite Z.max_r, Z.max_l, Z.pow_0_r, Z.mul_1_r in Hle2 by lia.
        replace (- e2) with (- (e2 + n2) + n2) in Hle2 by lia.
        rewrite Z.pow_add_r in Hle2 by lia.
        apply Z.div_le_upper_bound; lia.
      - assert (Hn0 : n2 = 0) by lia.
        rewrite Hn0, Z.div_1_r, Z.add_0_r. exact Hle2. }
    destruct (Zpos q / 2 ^ n2) as [|q'|q'] eqn:Hq'; [ | | lia].
    + left. reflexivity.
    + right. exists q', (e2 + n2).
      assert (Hfin : (e2 + n2 <=? emax - prec) = true).
      { apply Z.leb_le. unfold emax, prec. lia. }
      rewrite Hfin. split; [reflexivity | exact Hle3].
Qed.

(** [scaled_le] with both sides scaled by any large enough power of 2. *)
Lemma scaled_le_iff (a e B K : Z) :
  0 <= K -> 0 <= e + K ->
  scaled_le a e B <-> a * 2 ^ (e + K) <= B * 2 ^ K.
Proof.
  intros HK HeK. unfold scaled_le.
  destruct (Z_lt_le_dec e 0) as [He|He].
  - rewrite Z.max_r, Z.max_l, Z.pow_0_r, Z.mul_1_r by lia.
    replace (2 ^ K) with (2 ^ (- e) * 2 ^ (e + K))
      by (rewrite <- Z.pow_add_r by lia; f_equal; lia).
    rewrite Z.mul_assoc.
    assert (0 < 2 ^ (e + K)) by (apply Z.pow_pos_nonneg; lia).
    split; intros H'; [apply Z.mul_le_mono_nonneg_r; lia | apply Z.mul_le_mono_pos_r in H'; lia].
  - rewrite Z.max_l, Z.max_r, Z.pow_0_r, Z.mul_1_r by lia.
    rewrite (Z.pow_add_r 2 e K), Z.mul_assoc by lia.
    assert (0 < 2 ^ K) by (apply Z.pow_pos_nonneg; lia).
    split; intros H'; [apply Z.mul_le_mono_nonneg_r; lia | apply Z.mul_le_mono_pos_r in H'; lia].
Qed.

(** Moving [k] bits from the exponent into the mantissa. *)
Lemma scaled_le_shift (a e B k : Z) :
  0 <= k -> scaled_le a e B -> scaled_le (a * 2 ^ k) (e - k) B.
Proof.
  intros Hk H.
  apply (scaled_le_iff _ _ _ (Z.abs e + k)); [lia | lia |].
  apply (scaled_le_iff _ _ _ (Z.abs e + k)) in H; [| lia | lia].
  rewrite <- Z.mul_assoc, <- Z.pow_add_r by lia.
  replace (k + (e - k + (Z.abs e + k))) with (e + (Z.abs e + k)) by lia. exact H.
Qed.

(** A bound on a float bounds its integer part. *)
Lemma scaled_le_shiftl (m : positive) (e B : Z) :
  scaled_le (Zpos m) e B -> 0 <= Z.shiftl (Zpos m) e <= B.
Proof.
  unfold scaled_le. intros H. destruct (Z_lt_le_dec e 0) as [He|He].
  - rewrite Z.max_r, Z.max_l, Z.pow_0_r, Z.mul_1_r in H by lia.
    rewrite Z.shiftl_div_pow2 by lia.
    assert (0 < 2 ^ (- e)) by (apply Z.pow_pos_nonneg; lia).
    split; [apply Z.div_pos; lia | apply Z.div_le_upper_bound; lia].
  - rewrite Z.max_l, Z.max_r, Z.pow_0_r, Z.mul_1_r in H by lia.
    rewrite Z.shiftl_mul_pow2 by lia.
    assert (0 < 2 ^ e) by (apply Z.pow_pos_nonneg; lia). split; [nia | exact H].
Qed.

(** [scaled_le] is the order of the rationals. *)
Lemma Qle_scaled (a e c : Z) :
  (inject_Z a * Qpower 2 e <= inject_Z c)%Q <-> scaled_le a e c.
Proof.
  unfold scaled_le. destruct e as [|p|p].
  - unfold Qle. cbn [Qpower Qmult Qnum Qden inject_Z].
    change (Z.max 0 0) with 0. change (Z.max (- 0) 0) with 0.
    change (Z.pos (1 * 1)) with 1. rewrite Z.pow_0_r. lia.
  - change (2%Q) with (2 # 1)%Q. rewrite Qpower_decomp_pos.
    unfold Qle. cbn [Qmult Qnum Qden inject_Z].
    rewrite Z.max_l, Z.max_r, Z.pow_0_r by lia.
    rewrite Pos.mul_1_l, Pos2Z.inj_pow, Z.pow_1_l by lia. lia.
  - change (2%Q) with (2 # 1)%Q. rewrite Qpower_decomp_neg_pos.
    rewrite Z.pow_1_l by lia. unfold Qle. cbn [Qmult Qnum Qden inject_Z].
    rewrite Z.max_r, Z.max_l, Z.pow_0_r by lia.
    rewrite Pos.mul_1_l, Pos2Z.inj_pow. change (- Z.neg p) with (Z.pos p). lia.
Qed.

(** Rounding to nearest does not go below a positive integer bound that is
    at most 2^23, unless it overflows. *)
Lemma binary_round_aux_ge (sx : bool) (m : positive) (e B : Z) :
  0 < B <= 2 ^ 23 ->
  scaled_le (- Zpos m) e (- B) ->
  (exists sg : bool, binary_round_aux prec emax sx (Zpos m) e loc_Exact = S754_infinity sg) \/
  exists (m' : positive) (e' : Z),
    binary_round_aux prec emax sx (Zpos m) e loc_Exact = S754_finite sx m' e' /\
    scaled_le (- Zpos m') e' (- B).
Proof.
  intros HB Hle.
  pose proof (digits2_pos_bounds m) as [Hdlo Hdhi].
  pose proof (Pos2Z.is_pos (digits2_pos m)) as Hdpos.
  unfold binary_round_aux, shr_fexp. cbn [shr_record_of_loc Zdigits2].
  rewrite fexp_eq.
  remember (Z.max (Zpos (digits2_pos m) + e - 24) (-149)) as e1 eqn:He1.
  destruct (shr_eq (Zpos m) e (e1 - e) ltac:(lia)) as (r & s & -> & Hexact).
  cbn [shr_m].
  remember (Z.max (e1 - e) 0) as n eqn:Hn.
  remember (Zpos m / 2 ^ n) as m1 eqn:Hm1.
  assert (Hpn : 0 < 2 ^ n) by (apply Z.pow_pos_nonneg; lia).
  destruct (round_nearest_even_bounds m1 r s) as [Hm2 Hm2x].
  remember (round_nearest_even m1 (loc_of_shr_record (Build_shr_record m1 r s))) as m2 eqn:Hm2def.
  remember (e + n) as e2 eqn:He2.
  (* the shifted mantissa has at most 24 digits *)
  assert (Hm1hi : 0 < n -> m1 < 2 ^ 24).
  { intros Hnpos. subst m1. apply Z.div_lt_upper_bound; [lia|].
    rewrite <- Z.pow_add_r by lia.
    apply Z.lt_le_trans with (1 := Hdhi). apply Z.pow_le_mono_r; lia. }
  assert (Hnoshift : n = 0 -> m2 = Zpos m /\ e1 <= e2).
  { intros Hn0. assert (Hmod : Zpos m mod 2 ^ n = 0) by (rewrite Hn0; apply Z.mod_1_r).
    destruct (Hexact Hmod) as [-> ->]. rewrite (Hm2x eq_refl eq_refl).
    rewrite Hm1, Hn0, Z.div_1_r. split; [reflexivity | lia]. }
  assert (Hle2 : scaled_le (- m2) e2 (- B) /\ 0 < m2).
  { unfold scaled_le in *. destruct (Z_lt_le_dec 0 (e1 - e)) as [Hpos|Hneg].
    - destruct (Z_lt_le_dec 0 e1) as [He1pos|He1neg].
      + (* a normal number above 2^24 *)
        assert (Hn' : n = Zpos (digits2_pos m) - 24) by lia.
        assert (Hm1lo : 2 ^ 23 <= m1).
        { subst m1. apply Z.div_le_lower_bound; [lia|].
          rewrite <- Z.pow_add_r by lia.
          replace (n + 23) with (Zpos (digits2_pos m) - 1) by lia. exact Hdlo. }
        rewrite Z.max_l, Z.max_r, Z.pow_0_r, Z.mul_1_r by lia.
        assert (1 <= 2 ^ e2) by (apply Z.lt_pred_le, Z.pow_pos_nonneg; lia).
        split; nia.
      + rewrite Z.max_r, Z.max_l, Z.pow_0_r, Z.mul_1_r by lia.
        assert (He : e < 0) by lia.
        rewrite Z.max_r, Z.max_l, Z.pow_0_r, Z.mul_1_r in Hle by lia.
        replace (- e) with (- e2 + n) in Hle by lia.
        rewrite Z.pow_add_r in Hle by lia.
        assert (0 < 2 ^ (- e2)) by (apply Z.pow_pos_nonneg; lia).
        assert (Hk : B * 2 ^ (- e2) <= m1).
        { subst m1. apply Z.div_le_lower_bound; lia. }
        split; nia.
    - assert (Hn0 : n = 0) by lia.
      assert (Hmod : Zpos m mod 2 ^ n = 0) by (rewrite Hn0; apply Z.mod_1_r).
      destruct (Hexact Hmod) as [-> ->]. rewrite (Hm2x eq_refl eq_refl).
      rewrite Hm1, Hn0, Z.div_1_r. replace e2 with e by lia. split; [exact Hle | lia]. }
  destruct Hle2 as [Hle2 Hm2pos].
  assert (He2lo : 0 < n -> -149 <= e2 /\ m2 <= 2 ^ 24).
  { intros Hnpos. specialize (Hm1hi Hnpos). lia. }
  clear Hm2 Hm2x Hexact Hm2def Hm1 Hle Hm1hi.
  destruct m2 as [|q|q]; [lia | | lia].
  cbn [Zdigits2]. rewrite fexp_eq.
  remember (Z.max (Zpos (digits2_pos q) + e2 - 24) (-149)) as e3 eqn:He3.
  destruct (shr_eq (Zpos q) e2 (e3 - e2) ltac:(lia)) as (r' & s' & -> & _).
  cbn [shr_m].
  destruct (Z_lt_le_dec 0 (e3 - e2)) as [Hpos|Hneg].
  - (* the rounding carried into a 25th digit *)
    destruct (Z.eq_dec n 0) as [Hz|Hnz].
    { destruct (Hnoshift Hz) as [Hq _]. injection Hq as ->. lia. }
    destruct (He2lo ltac:(lia)) as [He2min Hq].
    pose proof (digits2_pos_bounds q) as [_ Hqhi].
    assert (Hdq : 25 <= Zpos (digits2_pos q)) by lia.
    assert (Hq24 : Zpos q = 2 ^ 24).
    { assert (2 ^ 24 <= 2 ^ (Zpos (digits2_pos q) - 1)) by (apply Z.pow_le_mono_r; lia).
      pose proof (digits2_pos_bounds q) as [Hqlo _]. lia. }
    change (2 ^ 24) with (Zpos 16777216) in Hq24. injection Hq24 as ->.
    change (Zpos (digits2_pos 16777216)) with 25 in *.
    replace (Z.max (e3 - e2) 0) with 1 by lia.
    change (Zpos 16777216 / 2 ^ 1) with (Zpos 8388608).
    destruct (Z.leb_spec (e2 + 1) (emax - prec)); [right | left; eexists; reflexivity].
    exists 8388608%positive, (e2 + 1). split; [reflexivity|].
    apply (scaled_le_iff _ _ _ (Z.abs e2 + 1)); [lia | lia |].
    apply (scaled_le_iff _ _ _ (Z.abs e2 + 1)) in Hle2; [| lia | lia].
    replace (e2 + 1 + (Z.abs e2 + 1)) with (1 + (e2 + (Z.abs e2 + 1))) by lia.
    rewrite Z.pow_add_r by lia. change (2 ^ 1) with 2. lia.
  - replace (Z.max (e3 - e2) 0) with 0 by lia.
    rewrite Z.pow_0_r, Z.div_1_r, Z.add_0_r.
    destruct (Z.leb_spec e2 (emax - prec)); [right | left; eexists; reflexivity].
    exists q, e2. split; [reflexivity | exact Hle2].
Qed.

Lemma scaled_ge_shiftl (m : positive) (e B : Z) :
  scaled_le (- Zpos m) e (- B) -> B <= Z.shiftl (Zpos m) e.
Proof.
  unfold scaled_le. intros H. destruct (Z_lt_le_dec e 0) as [He|He].
  - rewrite Z.max_r, Z.max_l, Z.pow_0_r, Z.mul_1_r in H by lia.
    rewrite Z.shiftl_div_pow2 by lia.
    assert (0 < 2 ^ (- e)) by (apply Z.pow_pos_nonneg; lia).
    apply Z.div_le_lower_bound; lia.
  - rewrite Z.max_l, Z.max_r, Z.pow_0_r, Z.mul_1_r in H by lia.
    rewrite Z.shiftl_mul_pow2 by lia. lia.
Qed.

Lemma Qge_scaled (a e c : Z) :
  (inject_Z c <= inject_Z a * Qpower 2 e)%Q <-> scaled_le (- a) e (- c).
Proof.
  rewrite <- Qle_scaled, !inject_Z_opp. split; intros H.
  - apply Qopp_le_compat in H.
    assert (E : (- inject_Z a * Qpower 2 e == - (inject_Z a * Qpower 2 e))%Q) by ring.
    rewrite E. exact H.
  - apply Qopp_le_compat in H. rewrite Qopp_involutive in H.
    assert (E : (- (- inject_Z a * Qpower 2 e) == inject_Z a * Qpower 2 e)%Q) by ring.
    rewrite E in H. exact H.
Qed.

End Rounding.

(** ** Facts about every [short], checked value by value *)

Lemma forall_block_spec (P : Z -> bool) (k : nat) :
  forall lo : Z,
    forall_block P k lo = true ->
    forall z : Z, lo <= z < lo + 2 ^ Z.of_nat k -> P z = true.
Proof.
  induction k as [|k IH]; intros lo H z Hz; cbn [forall_block] in H.
  - change (2 ^ Z.of_nat 0) with 1 in Hz. replace z with lo by lia. exact H.
  - apply andb_prop in H as [H0 H1].
    rewrite Nat2Z.inj_succ, Z.pow_succ_r in Hz by lia.
    destruct (Z_lt_le_dec z (lo + 2 ^ Z.of_nat k)) as [Hlt|Hge].
    + apply (IH lo H0). lia.
    + apply (IH _ H1). lia.
Qed.

Lemma forall_short_spec (P : Z -> bool) :
  forall_short P = true -> forall z : Z, Int.is_short z -> P z = true.
Proof.
  intros H z [Hlo Hhi]. apply (forall_block_spec P _ _ H).
  unfold Int.SHRT_MIN, Int.SHRT_MAX in *. change (2 ^ Z.of_nat 16) with 65536. lia.
Qed.

(** Checked on each of the 65536 values. *)
Lemma of_int_short_exact (s : Z) :
  Int.is_short s ->
  (s = 0 /\ of_int s = S754_zero false) \/
  (s <> 0 /\ exists (m : positive) (e : Z),
     of_int s = S754_finite (s <? 0) m e /\ e <= 0 /\ Zpos m = Z.abs s * 2 ^ (- e)).
Proof.
  intros Hs.
  assert (H : of_int_exactb s = true).
  { apply (forall_short_spec of_int_exactb); [|exact Hs]. vm_compute. reflexivity. }
  unfold of_int_exactb in H. destruct (of_int s) as [sg|sg| |sg m e]; try discriminate.
  - apply andb_prop in H as [H1 H2]. apply Z.eqb_eq in H1.
    destruct sg; [discriminate|]. left. split; [exact H1 | reflexivity].
  - apply andb_prop in H as [H H4]. apply andb_prop in H as [H H3].
    apply andb_prop in H as [H1 H2].
    apply negb_true_iff, Z.eqb_neq in H1. apply eqb_prop in H2.
    apply Z.leb_le in H3. apply Z.eqb_eq in H4.
    right. split; [exact H1|]. exists m, e. rewrite H2. repeat split; assumption.
Qed.

(** ** Products of a [short] and a gain *)

(** The binary32 product of a float that stands for the integer magnitude
    [a] with a finite float, when the exact magnitude of the product is at
    most [B]: a zero, or a float of magnitude at most [B]. *)
Lemma mul_finite_le (sx sy : bool) (mx my : positive) (ex ey a B : Z) :
  ex <= 0 ->
  Zpos mx = a * 2 ^ (- ex) ->
  0 <= B < 2 ^ 24 ->
  scaled_le (a * Zpos my) ey B ->
  mul (S754_finite sx mx ex) (S754_finite sy my ey) = S754_zero (xorb sx sy) \/
  exists (m : positive) (e : Z),
    mul (S754_finite sx mx ex) (S754_finite sy my ey) = S754_finite (xorb sx sy) m e /\
    0 <= Z.shiftl (Zpos m) e <= B.
Proof.
  intros Hex Hmx HB Hmag.
  apply (scaled_le_shift _ _ _ (- ex) ltac:(lia)) in Hmag.
  replace (a * Zpos my * 2 ^ (- ex)) with (Zpos (mx * my)) in Hmag
    by (rewrite Pos2Z.inj_mul, Hmx; lia).
  replace (ey - - ex) with (ex + ey) in Hmag by lia.
  unfold mul. cbn [SFmul].
  destruct (binary_round_aux_le (xorb sx sy) (mx * my) (ex + ey) B HB Hmag)
    as [-> | (m & e & -> & Hle)]; [left; reflexivity|].
  right. exists m, e. split; [reflexivity | exact (scaled_le_shiftl m e B Hle)].
Qed.

(** The binary32 product of a float that stands for the integer magnitude
    [a] with a finite float, when the exact magnitude of the product is at
    least [B]: an infinity, or a float of magnitude at least [B]. *)
Lemma mul_finite_ge (sx sy : bool) (mx my : positive) (ex ey a B : Z) :
  ex <= 0 ->
  Zpos mx = a * 2 ^ (- ex) ->
  0 < B <= 2 ^ 23 ->
  scaled_le (- (a * Zpos my)) ey (- B) ->
  (exists sg : bool,
     mul (S754_finite sx mx ex) (S754_finite sy my ey) = S754_infinity sg) \/
  exists (m : positive) (e : Z),
    mul (S754_finite sx mx ex) (S754_finite sy my ey) = S754_finite (xorb sx sy) m e /\
    B <= Z.shiftl (Zpos m) e.
Proof.
  intros Hex Hmx HB Hmag.
  apply (scaled_le_shift _ _ _ (- ex) ltac:(lia)) in Hmag.
  replace (- (a * Zpos my) * 2 ^ (- ex)) with (- Zpos (mx * my)) in Hmag
    by (rewrite Pos2Z.inj_mul, Hmx; lia).
  replace (ey - - ex) with (ex + ey) in Hmag by lia.
  unfold mul. cbn [SFmul].
  destruct (binary_round_aux_ge (xorb sx sy) (mx * my) (ex + ey) B HB Hmag)
    as [[sg ->] | (m & e & -> & Hle)]; [left; exists sg; reflexivity|].
  right. exists m, e. split; [reflexivity | exact (scaled_ge_shiftl m e B Hle)].
Qed.

(** When the exact product of a [short] and a finite gain lies in
    [-32768, 32767], so does the truncation of their binary32 product. *)
Lemma mul_short_in_range (s : Z) (gain : float32) :
  Int.is_short s ->
  is_finite gain = true ->
  (inject_Z (-32768) <= inject_Z s * to_Q gain <= inject_Z 32767)%Q ->
  is_finite (mul (of_int s) gain) = true /\
  Int.is_short (truncate (mul (of_int s) gain)).
Proof.
  intros Hs Hfin [Hlo Hhi].
  assert (Hzero : Int.is_short 0) by (unfold Int.is_short, Int.SHRT_MIN, Int.SHRT_MAX; lia).
  destruct gain as [sy|sy| |sy my ey]; try discriminate.
  - destruct (of_int_short_exact s Hs) as [[_ ->] | [_ (m & e & -> & _)]];
      split; try reflexivity; exact Hzero.
  - destruct (of_int_short_exact s Hs) as [[_ ->] | [Hnz (mx & ex & -> & Hex & Hmx)]];
      [split; [reflexivity | exact Hzero]|].
    cbn [to_Q] in Hlo, Hhi. rewrite Qmult_assoc, <- inject_Z_mult in Hlo, Hhi.
    apply Qle_scaled in Hhi. apply Qge_scaled in Hlo. change (- -32768) with 32768 in Hlo.
    set (B := if xorb (s <? 0) sy then 32768 else 32767).
    assert (HB : 0 <= B < 2 ^ 24) by (unfold B; destruct (xorb (s <? 0) sy); lia).
    assert (Hmag : scaled_le (Z.abs s * Zpos my) ey B).
    { unfold B. destruct (Z.ltb_spec s 0), sy; cbn [xorb cond_Zopp] in *.
      - replace (Z.abs s * Zpos my) with (s * - Zpos my) by lia. exact Hhi.
      - replace (Z.abs s * Zpos my) with (- (s * Zpos my)) by lia. exact Hlo.
      - replace (Z.abs s * Zpos my) with (- (s * - Zpos my)) by lia. exact Hlo.
      - replace (Z.abs s * Zpos my) with (s * Zpos my) by lia. exact Hhi. }
    destruct (mul_finite_le (s <? 0) sy mx my ex ey (Z.abs s) B Hex Hmx HB Hmag)
      as [-> | (m & e & -> & Hle)]; [split; [reflexivity | exact Hzero]|].
    split; [reflexivity|]. cbn [truncate].
    unfold Int.is_short, Int.SHRT_MIN, Int.SHRT_MAX, B in *.
    destruct (xorb (s <? 0) sy); cbn [cond_Zopp]; lia.
Qed.

(** When the exact product of a [short] and a finite gain is above 32767 or
    below -32768, so is the [int] their binary32 product converts to, if it
    converts at all. *)
Lemma mul_short_out_of_range (s : Z) (gain : float32) (z : Z) :
  Int.is_short s ->
  is_finite gain = true ->
  to_int (mul (of_int s) gain) = Some z ->
  ((inject_Z 32767 < inject_Z s * to_Q gain)%Q -> 32767 <= z) /\
  ((inject_Z s * to_Q gain < inject_Z (-32768))%Q -> z <= -32768).
Proof.
  intros Hs Hfin Hz.
  destruct gain as [sy|sy| |sy my ey]; try discriminate.
  - split; intros H; exfalso; revert H; unfold Qlt;
      cbn [to_Q Qmult Qnum Qden inject_Z]; lia.
  - destruct (of_int_short_exact s Hs) as [[-> _] | [Hnz (mx & ex & Hof & Hex & Hmx)]].
    + split; intros H; exfalso; revert H; unfold Qlt;
        cbn [Qmult Qnum Qden inject_Z]; lia.
    + assert (Hp : forall k : Z, 0 < 2 ^ Z.max k 0) by (intros k; apply Z.pow_pos_nonneg; lia).
      pose proof (Hp ey) as Hp1. pose proof (Hp (- ey)) as Hp2.
      pose proof (Pos2Z.is_pos my) as Hmy.
      rewrite Hof in Hz. cbn [to_Q]. rewrite Qmult_assoc, <- inject_Z_mult.
      split; intros H; apply Qlt_le_weak in H.
      * apply Qge_scaled in H.
        destruct (Z.ltb_spec s 0) as [Hneg|Hpos], sy; cbn [cond_Zopp] in H;
          try (exfalso; unfold scaled_le in H; nia).
        -- replace (- (s * - Zpos my)) with (- (Z.abs s * Zpos my)) in H by lia.
           destruct (mul_finite_ge true true mx my ex ey (Z.abs s) 32767 Hex Hmx ltac:(lia) H)
             as [[sg E] | (m & e & E & Hle)]; rewrite E in Hz; [discriminate|].
           unfold to_int in Hz. cbn [is_finite andb truncate xorb cond_Zopp] in Hz.
           destruct (Int.is_intb (Z.shiftl (Zpos m) e)); [|discriminate].
           injection Hz as <-. exact Hle.
        -- replace (- (s * Zpos my)) with (- (Z.abs s * Zpos my)) in H by lia.
           destruct (mul_finite_ge false false mx my ex ey (Z.abs s) 32767 Hex Hmx ltac:(lia) H)
             as [[sg E] | (m & e & E & Hle)]; rewrite E in Hz; [discriminate|].
           unfold to_int in Hz. cbn [is_finite andb truncate xorb cond_Zopp] in Hz.
           destruct (Int.is_intb (Z.shiftl (Zpos m) e)); [|discriminate].
           injection Hz as <-. exact Hle.
      * apply Qle_scaled in H.
        destruct (Z.ltb_spec s 0) as [Hneg|Hpos], sy; cbn [cond_Zopp] in H;
          try (exfalso; unfold scaled_le in H; nia).
        -- replace (s * Zpos my) with (- (Z.abs s * Zpos my)) in H by lia.
           destruct (mul_finite_ge true false mx my ex ey (Z.abs s) 32768 Hex Hmx ltac:(lia) H)
             as [[sg E] | (m & e & E & Hle)]; rewrite E in Hz; [discriminate|].
           unfold to_int in Hz. cbn [is_finite andb truncate xorb cond_Zopp] in Hz.
           destruct (Int.is_intb (- Z.shiftl (Zpos m) e)); [|discriminate].
           injection Hz as <-. lia.
        -- replace (s * - Zpos my) with (- (Z.abs s * Zpos my)) in H by lia.
           destruct (mul_finite_ge false true mx my ex ey (Z.abs s) 32768 Hex Hmx ltac:(lia) H)
             as [[sg E] | (m & e & E & Hle)]; rewrite E in Hz; [discriminate|].
           unfold to_int in Hz. cbn [is_finite andb truncate xorb cond_Zopp] in Hz.
           destruct (Int.is_intb (- Z.shiftl (Zpos m) e)); [|discriminate].
           injection Hz as <-. lia.
Qed.

(** Multiplying a [short] by +0.0 gives a zero (of either sign), which
    converts to the [int] 0. *)
Lemma scaled_zero (s : Z) : Int.is_short s -> scaled zero s = Some 0.
Proof.
  intros Hs. unfold scaled.
  destruct (of_int_short_exact s Hs) as [[_ ->] | [_ (m & e & -> & _)]]; reflexivity.
Qed.

(** Multiplying a [short] by 1.0 gives it back: the product is exact, and
    rounding is caught between the bounds [|s|] and [|s|]. *)
Lemma scaled_one (s : Z) : Int.is_short s -> scaled one s = Some s.
Proof.
  intros Hs. unfold scaled.
  destruct (of_int_short_exact s Hs) as [[-> ->] | [Hnz (mx & ex & -> & Hex & Hmx)]];
    [reflexivity|].
  assert (Ha : 0 < Z.abs s <= 2 ^ 23)
    by (unfold Int.is_short, Int.SHRT_MIN, Int.SHRT_MAX in Hs; lia).
  assert (Hle : scaled_le (Z.abs s * Zpos 8388608) (-23) (Z.abs s)).
  { unfold scaled_le. change (Z.max (-23) 0) with 0. change (Z.max (- -23) 0) with 23. lia. }
  assert (Hge : scaled_le (- (Z.abs s * Zpos 8388608)) (-23) (- Z.abs s)).
  { unfold scaled_le. change (Z.max (-23) 0) with 0. change (Z.max (- -23) 0) with 23. lia. }
  unfold one.
  destruct (mul_finite_le (s <? 0) false mx 8388608 ex (-23) (Z.abs s) (Z.abs s) Hex Hmx
              ltac:(lia) Hle) as [E | (m & e & E & Hup)];
    destruct (mul_finite_ge (s <? 0) false mx 8388608 ex (-23) (Z.abs s) (Z.abs s) Hex Hmx
                Ha Hge) as [[sg E'] | (m' & e' & E' & Hdown)];
    rewrite E in E'; try discriminate.
  injection E' as <- <-. rewrite E.
  assert (Htr : truncate (S754_finite (xorb (s <? 0) false) m e) = s).
  { cbn [truncate]. rewrite xorb_false_r.
    destruct (Z.ltb_spec s 0); cbn [cond_Zopp]; lia. }
  unfold to_int. rewrite Htr. cbn [is_finite andb].
  replace (Int.is_intb s) with true.
  - rewrite clamp_id, static_cast_short_id by exact Hs. reflexivity.
  - symmetry. unfold Int.is_intb, Int.INT_MIN, Int.INT_MAX.
    unfold Int.is_short, Int.SHRT_MIN, Int.SHRT_MAX in Hs.
    apply andb_true_intro. split; apply Z.leb_le; lia.
Qed.

(** ** One position of a call, and the clamp *)

(** What a returning call did at one position. *)
Lemma apply_gain_sample
    (samples : list Z) (len : N) (gain : float32) (out : list Z) (tr : list access)
    (i : N) (s : Z) :
  (len < Int.SIZE_MOD)%N ->
  returns (apply_gain samples len gain) out tr ->
  (i < len)%N ->
  samples !! N.to_nat i = Some s ->
  exists z : Z,
    to_int (mul (of_int s) gain) = Some z /\
    out !! N.to_nat i = Some (Int.static_cast_short (clamp z)).
Proof.
  intros Hlen Hret Hi Hs.
  destruct (apply_gain_returns_inv _ _ _ _ _ Hlen Hret) as [Hout _].
  destruct (scale_prefix_lookup_lt gain _ samples out (N.to_nat i) Hout ltac:(lia))
    as (s' & v & Hs' & Hv & Hlook).
  rewrite Hs in Hs'. injection Hs' as <-. unfold scaled in Hv.
  destruct (to_int (mul (of_int s) gain)) as [z|]; [|discriminate].
  injection Hv as <-. exists z. split; [reflexivity | exact Hlook].
Qed.

(** A pass over more elements than the list has is undefined. *)
Lemma scale_prefix_short (gain : float32) (n : nat) (l : list Z) :
  (length l < n)%nat -> scale_prefix gain n l = None.
Proof.
  intros Hn. destruct (scale_prefix gain n l) as [r|] eqn:H; [|reflexivity].
  apply scale_prefix_length in H. lia.
Qed.

Lemma mul_not_finite (x gain : float32) :
  is_finite gain = false -> is_finite (mul x gain) = false.
Proof.
  destruct gain as [sy|sy| |sy my ey]; try discriminate; intros _;
    destruct x; reflexivity.
Qed.

Lemma clamp_is_short (z : Z) : Int.is_short (clamp z).
Proof.
  unfold clamp, Int.is_short, Int.SHRT_MIN, Int.SHRT_MAX.
  destruct (Z.gtb_spec z 32767);
    [destruct (Z.ltb_spec 32767 (-32768)) | destruct (Z.ltb_spec z (-32768))]; lia.
Qed.

Lemma clamp_monotone (z z' : Z) : z <= z' -> clamp z <= clamp z'.
Proof.
  unfold clamp. intros H.
  destruct (Z.gtb_spec z 32767), (Z.gtb_spec z' 32767);
    repeat match goal with |- context [?a <? ?b] => destruct (Z.ltb_spec a b) end; lia.
Qed.

Lemma stored_is_clamp (z : Z) : Int.static_cast_short (clamp z) = clamp z.
Proof. apply static_cast_short_id, clamp_is_short. Qed.

(** The result of rounding carries the sign it was given. *)
Lemma binary_round_aux_cases (sx : bool) (m e : Z) (l : location) :
  binary_round_aux prec emax sx m e l = S754_zero sx \/
  binary_round_aux prec emax sx m e l = S754_infinity sx \/
  binary_round_aux prec emax sx m e l = S754_nan \/
  exists (m' : positive) (e' : Z),
    binary_round_aux prec emax sx m e l = S754_finite sx m' e'.
Proof.
  unfold binary_round_aux.
  destruct (shr_fexp prec emax m e l) as [mrs e1].
  destruct (shr_fexp prec emax _ e1 loc_Exact) as [mrs' e2].
  destruct (shr_m mrs') as [|p|p]; [left; reflexivity | | right; right; left; reflexivity].
  destruct (e2 <=? emax - prec); [|right; left; reflexivity].
  right; right; right. exists p, e2. reflexivity.
Qed.

Lemma shiftl_pos_nonneg (m : positive) (e : Z) : 0 <= Z.shiftl (Zpos m) e.
Proof. apply Z.shiftl_nonneg. lia. Qed.

(** The [int] a product converts to has the sign of the product. *)
Lemma mul_short_sign (s : Z) (gain : float32) (z : Z) :
  Int.is_short s ->
  is_finite gain = true ->
  to_int (mul (of_int s) gain) = Some z ->
  ((0 <= to_Q gain)%Q -> (0 <= s -> 0 <= z) /\ (s <= 0 -> z <= 0)) /\
  ((to_Q gain <= 0)%Q -> (0 <= s -> z <= 0) /\ (s <= 0 -> 0 <= z)).
Proof.
  intros Hs Hfin Hz.
  assert (Hzt : z = truncate (mul (of_int s) gain)).
  { unfold to_int in Hz.
    destruct (is_finite (mul (of_int s) gain) && Int.is_intb (truncate (mul (of_int s) gain)));
      [injection Hz as <-; reflexivity | discriminate]. }
  destruct gain as [sy|sy| |sy my ey]; try discriminate.
  - assert (z = 0); [|lia]. rewrite Hzt.
    destruct (of_int_short_exact s Hs) as [[_ ->] | [_ (m & e & -> & _)]]; reflexivity.
  - destruct (of_int_short_exact s Hs) as [[-> E] | [Hnz (mx & ex & Hof & _)]].
    + assert (z = 0); [|lia]. rewrite Hzt, E. reflexivity.
    + rewrite Hof in Hzt. unfold mul in Hzt. cbn [SFmul] in Hzt.
      assert (Hsign : z = cond_Zopp (xorb (s <? 0) sy) (Z.abs z)).
      { destruct (binary_round_aux_cases (xorb (s <? 0) sy) (Zpos (mx * my)) (ex + ey) loc_Exact)
          as [E | [E | [E | (m' & e' & E)]]]; rewrite E in Hzt; cbn [truncate] in Hzt;
          try (subst z; destruct (xorb (s <? 0) sy); reflexivity).
        pose proof (shiftl_pos_nonneg m' e').
        subst z. destruct (xorb (s <? 0) sy); cbn [cond_Zopp]; lia. }
      assert (Hp : forall k : Z, 0 < 2 ^ Z.max k 0) by (intros k; apply Z.pow_pos_nonneg; lia).
      pose proof (Hp ey) as Hp1. pose proof (Hp (- ey)) as Hp2.
      pose proof (Pos2Z.is_pos my) as Hmy.
      cbn [to_Q]. split; intros H.
      * change 0%Q with (inject_Z 0) in H. apply Qge_scaled in H.
        destruct sy; cbn [cond_Zopp] in H; [exfalso; unfold scaled_le in H; nia|].
        rewrite xorb_false_r in Hsign.
        destruct (Z.ltb_spec s 0); cbn [cond_Zopp] in Hsign; lia.
      * change 0%Q with (inject_Z 0) in H. apply Qle_scaled in H.
        destruct sy; cbn [cond_Zopp] in H; [|exfalso; unfold scaled_le in H; nia].
        rewrite xorb_true_r in Hsign.
        destruct (Z.ltb_spec s 0); cbn [cond_Zopp negb] in Hsign; lia.
Qed.

Lemma to_int_truncate (f : float32) (z : Z) :
  to_int f = Some z -> is_finite f = true /\ z = truncate f /\ Int.is_int z.
Proof.
  unfold to_int. destruct (is_finite f); [|discriminate].
  destruct (Int.is_intb (truncate f)) eqn:Hint; [|discriminate].
  cbn [andb]. intros H. injection H as <-. split; [reflexivity|]. split; [reflexivity|].
  unfold Int.is_intb in Hint. apply andb_prop in Hint as [H1 H2].
  apply Z.leb_le in H1, H2. split; assumption.
Qed.

Lemma to_int_finite (sg : bool) (m : positive) (e : Z) :
  Z.shiftl (Zpos m) e <= 2147483647 ->
  to_int (S754_finite sg m e) = Some (cond_Zopp sg (Z.shiftl (Zpos m) e)).
Proof.
  intros H. pose proof (shiftl_pos_nonneg m e). unfold to_int. cbn [is_finite truncate andb].
  replace (Int.is_intb (cond_Zopp sg (Z.shiftl (Z.pos m) e))) with true; [reflexivity|].
  symmetry. unfold Int.is_intb, Int.INT_MIN, Int.INT_MAX.
  apply andb_true_intro. split; apply Z.leb_le; destruct sg; cbn [cond_Zopp]; lia.
Qed.

(** A gain of magnitude at most 1 never enlarges a sample, and its product
    always converts. *)
Lemma mul_short_attenuate (s : Z) (gain : float32) :
  Int.is_short s ->
  is_finite gain = true ->
  (inject_Z (-1) <= to_Q gain <= inject_Z 1)%Q ->
  exists z : Z, to_int (mul (of_int s) gain) = Some z /\ Z.abs z <= Z.abs s.
Proof.
  intros Hs Hfin [Hlo Hhi].
  destruct gain as [sy|sy| |sy my ey]; try discriminate.
  - exists 0. split; [|lia].
    destruct (of_int_short_exact s Hs) as [[_ ->] | [_ (m & e & -> & _)]]; reflexivity.
  - destruct (of_int_short_exact s Hs) as [[-> ->] | [Hnz (mx & ex & -> & Hex & Hmx)]];
      [exists 0; split; [reflexivity | lia]|].
    assert (Hg : scaled_le (Zpos my) ey 1).
    { cbn [to_Q] in Hlo, Hhi. destruct sy; cbn [cond_Zopp] in Hlo, Hhi.
      - apply Qge_scaled in Hlo. exact Hlo.
      - apply Qle_scaled in Hhi. exact Hhi. }
    assert (Hmag : scaled_le (Z.abs s * Zpos my) ey (Z.abs s)).
    { unfold scaled_le in *. nia. }
    assert (HB : 0 <= Z.abs s < 2 ^ 24)
      by (unfold Int.is_short, Int.SHRT_MIN, Int.SHRT_MAX in Hs; lia).
    destruct (mul_finite_le (s <? 0) sy mx my ex ey (Z.abs s) (Z.abs s) Hex Hmx HB Hmag)
      as [-> | (m & e & -> & Hle)]; [exists 0; split; [reflexivity | lia]|].
    exists (cond_Zopp (xorb (s <? 0) sy) (Z.shiftl (Zpos m) e)). split.
    + apply to_int_finite. lia.
    + destruct (xorb (s <? 0) sy); cbn [cond_Zopp]; lia.
Qed.

(** A gain of magnitude at least 1 never shrinks the [int] a sample becomes. *)
Lemma mul_short_amplify (s : Z) (gain : float32) (z : Z) :
  Int.is_short s ->
  is_finite gain = true ->
  (inject_Z 1 <= to_Q gain \/ to_Q gain <= inject_Z (-1))%Q ->
  to_int (mul (of_int s) gain) = Some z ->
  Z.abs s <= Z.abs z.
Proof.
  intros Hs Hfin Hg Hz.
  destruct gain as [sy|sy| |sy my ey]; try discriminate.
  - exfalso. destruct Hg as [H|H]; revert H; unfold Qle; cbn; lia.
  - destruct (of_int_short_exact s Hs) as [[-> _] | [Hnz (mx & ex & Hof & Hex & Hmx)]]; [lia|].
    assert (Hp : forall k : Z, 0 < 2 ^ Z.max k 0) by (intros k; apply Z.pow_pos_nonneg; lia).
    pose proof (Hp ey) as Hp1. pose proof (Hp (- ey)) as Hp2.
    pose proof (Pos2Z.is_pos my) as Hmy.
    assert (Hg' : scaled_le (- Zpos my) ey (- 1)).
    { cbn [to_Q] in Hg. destruct Hg as [H|H], sy; cbn [cond_Zopp] in H.
      - apply Qge_scaled in H. exfalso. unfold scaled_le in H. nia.
      - apply Qge_scaled in H. exact H.
      - apply Qle_scaled in H. exact H.
      - apply Qle_scaled in H. exfalso. unfold scaled_le in H. nia. }
    assert (Hmag : scaled_le (- (Z.abs s * Zpos my)) ey (- Z.abs s)).
    { unfold scaled_le in *. nia. }
    assert (HB : 0 < Z.abs s <= 2 ^ 23)
      by (unfold Int.is_short, Int.SHRT_MIN, Int.SHRT_MAX in Hs; lia).
    rewrite Hof in Hz.
    destruct (mul_finite_ge (s <? 0) sy mx my ex ey (Z.abs s) (Z.abs s) Hex Hmx HB Hmag)
      as [[sg E] | (m & e & E & Hle)]; rewrite E in Hz; [discriminate|].
    apply to_int_truncate in Hz as (_ & -> & _). cbn [truncate].
    destruct (xorb (s <? 0) sy); cbn [cond_Zopp]; lia.
Qed.

(** When the exact product is an integer of magnitude at most 2^23, the
    binary32 product is that integer: no rounding takes place. *)
Lemma mul_short_exact_integer (s : Z) (gain : float32) (K : Z) :
  Int.is_short s ->
  is_finite gain = true ->
  (inject_Z s * to_Q gain == inject_Z K)%Q ->
  Z.abs K <= 2 ^ 23 ->
  to_int (mul (of_int s) gain) = Some K.
Proof.
  intros Hs Hfin Heq HK.
  assert (Hle : (inject_Z s * to_Q gain <= inject_Z K)%Q) by (rewrite Heq; apply Qle_refl).
  assert (Hge : (inject_Z K <= inject_Z s * to_Q gain)%Q) by (rewrite Heq; apply Qle_refl).
  clear Heq.
  destruct gain as [sy|sy| |sy my ey]; try discriminate.
  - assert (K = 0) as ->
      by (revert Hle Hge; unfold Qle; cbn [to_Q Qmult Qnum Qden inject_Z]; lia).
    destruct (of_int_short_exact s Hs) as [[_ ->] | [_ (m & e & -> & _)]]; reflexivity.
  - cbn [to_Q] in Hle, Hge. rewrite Qmult_assoc, <- inject_Z_mult in Hle, Hge.
    apply Qle_scaled in Hle. apply Qge_scaled in Hge.
    assert (Hp : forall k : Z, 0 < 2 ^ Z.max k 0) by (intros k; apply Z.pow_pos_nonneg; lia).
    pose proof (Hp ey) as Hp1. pose proof (Hp (- ey)) as Hp2.
    pose proof (Pos2Z.is_pos my) as Hmy.
    destruct (of_int_short_exact s Hs) as [[-> ->] | [Hnz (mx & ex & -> & Hex & Hmx)]].
    + assert (K = 0) as -> by (unfold scaled_le in *; nia). reflexivity.
    + assert (Hsign : K = cond_Zopp (xorb (s <? 0) sy) (Z.abs K) /\ 0 < Z.abs K).
      { unfold scaled_le in *.
        destruct (Z.ltb_spec s 0), sy; cbn [xorb cond_Zopp] in *; split; nia. }
      destruct Hsign as [Hsign HKpos].
      assert (Hmle : scaled_le (Z.abs s * Zpos my) ey (Z.abs K)).
      { destruct (Z.ltb_spec s 0), sy; cbn [xorb cond_Zopp] in *.
        - replace (Z.abs s * Zpos my) with (s * - Zpos my) by lia.
          replace (Z.abs K) with K by lia. exact Hle.
        - replace (Z.abs s * Zpos my) with (- (s * Zpos my)) by lia.
          replace (Z.abs K) with (- K) by lia. exact Hge.
        - replace (Z.abs s * Zpos my) with (- (s * - Zpos my)) by lia.
          replace (Z.abs K) with (- K) by lia. exact Hge.
        - replace (Z.abs s * Zpos my) with (s * Zpos my) by lia.
          replace (Z.abs K) with K by lia. exact Hle. }
      assert (Hmge : scaled_le (- (Z.abs s * Zpos my)) ey (- Z.abs K)).
      { destruct (Z.ltb_spec s 0), sy; cbn [xorb cond_Zopp] in *.
        - replace (Z.abs s * Zpos my) with (s * - Zpos my) by lia.
          replace (Z.abs K) with K by lia. exact Hge.
        - replace (- (Z.abs s * Zpos my)) with (s * Zpos my) by lia.
          replace (- Z.abs K) with K by lia. exact Hle.
        - replace (- (Z.abs s * Zpos my)) with (s * - Zpos my) by lia.
          replace (- Z.abs K) with K by lia. exact Hle.
        - replace (Z.abs s * Zpos my) with (s * Zpos my) by lia.
          replace (Z.abs K) with K by lia. exact Hge. }
      destruct (mul_finite_le (s <? 0) sy mx my ex ey (Z.abs s) (Z.abs K) Hex Hmx
                  ltac:(lia) Hmle) as [E | (m & e & E & Hup)];
        destruct (mul_finite_ge (s <? 0) sy mx my ex ey (Z.abs s) (Z.abs K) Hex Hmx
                    ltac:(lia) Hmge) as [[sg E'] | (m' & e' & E' & Hdown)];
        rewrite E in E'; try discriminate.
      injection E' as <- <-. rewrite E.
      rewrite to_int_finite by lia. f_equal.
      replace (Z.shiftl (Zpos m) e) with (Z.abs K) by lia. symmetry. exact Hsign.
Qed.

(** Calls on one sample, and positions of a returning call. *)
Lemma scaled_returns_single (s : Z) (gain : float32) (v : Z) :
  scaled gain s = Some v ->
  returns (apply_gain [s] 1 gain) [v] [Load 0; Store 0]%N.
Proof.
  intros H. unfold returns. rewrite apply_gain_eq by reflexivity.
  change (N.to_nat 1) with 1%nat. cbn [scale_prefix]. rewrite H. reflexivity.
Qed.

Lemma apply_gain_scaled
    (samples : list Z) (len : N) (gain : float32) (out : list Z) (tr : list access)
    (i : N) (s : Z) :
  (len < Int.SIZE_MOD)%N ->
  returns (apply_gain samples len gain) out tr ->
  (i < len)%N ->
  samples !! N.to_nat i = Some s ->
  out !! N.to_nat i = scaled gain s.
Proof.
  intros Hlen Hret Hi Hs.
  destruct (apply_gain_returns_inv _ _ _ _ _ Hlen Hret) as [Hout _].
  destruct (scale_prefix_lookup_lt gain _ samples out (N.to_nat i) Hout ltac:(lia))
    as (s' & v & Hs' & Hv & Hlook).
  rewrite Hs in Hs'. injection Hs' as <-. rewrite Hlook, Hv. reflexivity.
Qed.

(** A gain under which every [short] has a stored value: the call on a
    buffer of [short]s returns, with that value at each processed position. *)
Lemma apply_gain_pointwise (f : Z -> Z) (samples : list Z) (len : N) (gain : float32) :
  (forall s : Z, Int.is_short s -> scaled gain s = Some (f s)) ->
  (len < Int.SIZE_MOD)%N ->
  Forall Int.is_short samples ->
  (N.to_nat len <= length samples)%nat ->
  exists out : list Z,
    returns (apply_gain samples len gain) out (pass_trace 0 (N.to_nat len)) /\
    forall (i : N) (s : Z),
      (i < len)%N -> samples !! N.to_nat i = Some s -> out !! N.to_nat i = Some (f s).
Proof.
  intros Hf Hlen Hshort Hcap. rewrite Forall_lookup in Hshort.
  destruct (scale_prefix_defined gain (N.to_nat len) samples Hcap) as [out Hout].
  { intros j s _ Hs. rewrite (Hf s (Hshort j s Hs)). eexists; reflexivity. }
  assert (Hret : returns (apply_gain samples len gain) out (pass_trace 0 (N.to_nat len))).
  { unfold returns. rewrite apply_gain_eq, Hout by exact Hlen. reflexivity. }
  exists out. split; [exact Hret|].
  intros i s Hi Hs. rewrite (apply_gain_scaled _ _ _ _ _ i s Hlen Hret Hi Hs).
  apply Hf. exact (Hshort _ s Hs).
Qed.

Lemma clamp_abs_le (z : Z) : Z.abs (clamp z) <= Z.abs z.
Proof.
  unfold clamp. destruct (Z.gtb_spec z 32767);
    repeat match goal with |- context [?a <? ?b] => destruct (Z.ltb_spec a b) end; lia.
Qed.

Lemma clamp_abs_ge (z : Z) : Z.min (Z.abs z) 32767 <= Z.abs (clamp z).
Proof.
  unfold clamp. destruct (Z.gtb_spec z 32767);
    repeat match goal with |- context [?a <? ?b] => destruct (Z.ltb_spec a b) end; lia.
Qed.

Lemma scaled_minus_one (s : Z) :
  Int.is_short s -> scaled minus_one s = Some (if s =? -32768 then 32767 else - s).
Proof.
  intros Hs. unfold scaled.
  rewrite (mul_short_exact_integer s minus_one (- s) Hs eq_refl).
  - rewrite stored_is_clamp. f_equal.
    unfold Int.is_short, Int.SHRT_MIN, Int.SHRT_MAX in Hs.
    destruct (Z.eqb_spec s (-32768)) as [->|Hne]; [reflexivity|].
    apply clamp_id. unfold Int.is_short, Int.SHRT_MIN, Int.SHRT_MAX. lia.
  - let q := eval vm_compute in (to_Q minus_one) in change (to_Q minus_one) with q.
    unfold Qeq. cbn [Qmult Qnum Qden inject_Z]. lia.
  - unfold Int.is_short, Int.SHRT_MIN, Int.SHRT_MAX in Hs. lia.
Qed.

Lemma scaled_half (s : Z) : Int.is_short s -> scaled half s = Some (Z.quot s 2).
Proof.
  intros Hs.
  assert (H : match scaled half s with Some v => v =? Z.quot s 2 | None => false end = true).
  { apply (forall_short_spec
             (fun z => match scaled half z with Some v => v =? Z.quot z 2 | None => false end));
      [|exact Hs].
    vm_compute. reflexivity. }
  destruct (scaled half s) as [v|]; [|discriminate].
  apply Z.eqb_eq in H. subst v. reflexivity.
Qed.

Lemma scale_prefix_app (gain : float32) (n2 : nat) (l2 : list Z) :
  forall l1 : list Z,
    scale_prefix gain (length l1 + n2) (l1 ++ l2) =
      match scale_prefix gain (length l1) l1, scale_prefix gain n2 l2 with
      | Some o1, Some o2 => Some (o1 ++ o2)
      | _, _ => None
      end.
Proof.
  induction l1 as [|s l1 IH]; cbn [length Nat.add app scale_prefix].
  - destruct (scale_prefix gain n2 l2); reflexivity.
  - destruct (scaled gain s) as [v|]; [|reflexivity]. rewrite IH.
    destruct (scale_prefix gain (length l1) l1), (scale_prefix gain n2 l2); reflexivity.
Qed.

Lemma binary_round_aux_opp (sx : bool) (m e : Z) (l : location) :
  SFopp (binary_round_aux prec emax sx m e l) = binary_round_aux prec emax (negb sx) m e l.
Proof.
  unfold binary_round_aux.
  destruct (shr_fexp prec emax m e l) as [mrs e1].
  destruct (shr_fexp prec emax _ e1 loc_Exact) as [mrs' e2].
  destruct (shr_m mrs') as [|p|p]; [reflexivity | | reflexivity].
  destruct (e2 <=? emax - prec); reflexivity.
Qed.

Lemma of_int_opp (z : Z) : z <> 0 -> of_int (- z) = SFopp (of_int z).
Proof.
  intros Hz. unfold of_int, binary_normalize.
  destruct z as [|p|p]; [contradiction | |].
  - change (- Z.pos p) with (Z.neg p). cbv iota. unfold binary_round.
    destruct (shl_align p 0 _) as [mz ez]. rewrite binary_round_aux_opp. reflexivity.
  - change (- Z.neg p) with (Z.pos p). cbv iota. unfold binary_round.
    destruct (shl_align p 0 _) as [mz ez]. rewrite binary_round_aux_opp. reflexivity.
Qed.

Lemma mul_opp_l (x y : float32) : mul (SFopp x) y = SFopp (mul x y).
Proof.
  unfold mul.
  destruct x as [sx|sx| |sx mx ex], y as [sy|sy| |sy my ey]; cbn [SFopp SFmul];
    try rewrite binary_round_aux_opp; try reflexivity;
    destruct sx, sy; reflexivity.
Qed.

Lemma truncate_opp (f : float32) : truncate (SFopp f) = - truncate f.
Proof.
  destruct f as [sg|sg| |sg m e]; cbn [SFopp truncate]; try reflexivity.
  destruct sg; cbn [negb cond_Zopp]; lia.
Qed.

Lemma is_finite_opp (f : float32) : is_finite (SFopp f) = is_finite f.
Proof. destruct f; reflexivity. Qed.

Lemma clamp_inside (z v : Z) : clamp z = v -> -32768 < v < 32767 -> z = v.
Proof.
  unfold clamp. destruct (Z.gtb_spec z 32767);
    repeat match goal with |- context [?a <? ?b] => destruct (Z.ltb_spec a b) end; lia.
Qed.

(** Truncation is toward zero, so the stored value of [- s] is the opposite
    of the one of [s], short of the two ends of the range. *)
Lemma scaled_opp (gain : float32) (s v : Z) :
  scaled gain s = Some v -> -32768 < v < 32767 -> scaled gain (- s) = Some (- v).
Proof.
  unfold scaled. intros Hv Hin.
  destruct (to_int (mul (of_int s) gain)) as [z|] eqn:Hz; [|discriminate].
  injection Hv as Hv. rewrite stored_is_clamp in Hv.
  apply clamp_inside in Hv; [|exact Hin]. subst z.
  apply to_int_truncate in Hz as (Hfin & Htr & _).
  destruct (Z.eq_dec s 0) as [->|Hnz].
  - assert (v = 0) as ->.
    { rewrite Htr. change (of_int 0) with (S754_zero false) in *.
      destruct gain; try discriminate; reflexivity. }
    change (- 0) with 0. unfold to_int. rewrite Hfin, <- Htr. reflexivity.
  - rewrite of_int_opp, mul_opp_l by exact Hnz.
    unfold to_int. rewrite is_finite_opp, truncate_opp, Hfin, <- Htr.
    replace (Int.is_intb (- v)) with true.
    + cbn [andb]. rewrite stored_is_clamp, clamp_id; [reflexivity|].
      unfold Int.is_short, Int.SHRT_MIN, Int.SHRT_MAX. lia.
    + symmetry. unfold Int.is_intb, Int.INT_MIN, Int.INT_MAX.
      apply andb_true_intro. split; apply Z.leb_le; lia.
Qed.

(** ** Rounding is monotone *)

Lemma rne_bounds (m n : Z) : m / 2 ^ n <= rne m n <= m / 2 ^ n + 1.
Proof.
  unfold rne. destruct (2 * (m mod 2 ^ n) ?= 2 ^ n); [destruct (Z.even _)| |]; lia.
Qed.

Lemma rne_0 (m : Z) : rne m 0 = m.
Proof.
  unfold rne. rewrite Z.pow_0_r, Z.mod_1_r, Z.div_1_r. reflexivity.
Qed.

Lemma rne_mono (m m' n : Z) : 0 <= n -> m <= m' -> rne m n <= rne m' n.
Proof.
  intros Hn Hm.
  assert (Hp : 0 < 2 ^ n) by (apply Z.pow_pos_nonneg; lia).
  pose proof (Z.div_le_mono m m' (2 ^ n) Hp Hm) as Hq.
  pose proof (rne_bounds m n). pose proof (rne_bounds m' n).
  destruct (Z.eq_dec (m / 2 ^ n) (m' / 2 ^ n)) as [E|NE]; [|lia].
  pose proof (Z.div_mod m (2 ^ n) ltac:(lia)) as D.
  pose proof (Z.div_mod m' (2 ^ n) ltac:(lia)) as D'.
  assert (Hr : m mod 2 ^ n <= m' mod 2 ^ n) by (rewrite E in D; lia).
  unfold rne. rewrite <- E.
  destruct (Z.compare_spec (2 * (m mod 2 ^ n)) (2 ^ n)),
           (Z.compare_spec (2 * (m' mod 2 ^ n)) (2 ^ n));
    try destruct (Z.even (m / 2 ^ n)); lia.
Qed.

Lemma rne_scale (m n k : Z) :
  0 <= n -> 0 <= k -> rne (m * 2 ^ k) (n + k) = rne m n.
Proof.
  intros Hn Hk.
  assert (Hpn : 0 < 2 ^ n) by (apply Z.pow_pos_nonneg; lia).
  assert (Hpk : 0 < 2 ^ k) by (apply Z.pow_pos_nonneg; lia).
  unfold rne. rewrite Z.pow_add_r by lia.
  rewrite Z.div_mul_cancel_r by lia.
  rewrite Zmult_mod_distr_r.
  assert (E : (2 * (m mod 2 ^ n * 2 ^ k) ?= 2 ^ n * 2 ^ k) = (2 * (m mod 2 ^ n) ?= 2 ^ n)).
  { rewrite Z.mul_assoc. symmetry. apply Zmult_compare_compat_r. lia. }
  rewrite E. reflexivity.
Qed.

(** [n >= 1] right shifts: the quotient, the last bit shifted out, and
    whether an earlier one was set. *)
Lemma shr_iter_flags (m : Z) (n : nat) :
  0 <= m ->
  Nat.iter (S n) shr_1 (Build_shr_record m false false) =
    Build_shr_record (m / 2 ^ Z.of_nat (S n)) (Z.odd (m / 2 ^ Z.of_nat n))
                     (negb (m mod 2 ^ Z.of_nat n =? 0)).
Proof.
  intros Hm. induction n as [|n IH].
  - cbn [Nat.iter nat_rect]. rewrite shr_1_eq by exact Hm.
    change (2 ^ Z.of_nat 1) with 2. change (2 ^ Z.of_nat 0) with 1.
    rewrite Z.div_1_r, Z.mod_1_r. reflexivity.
  - rewrite Nat.iter_succ, IH.
    assert (Hp : 0 < 2 ^ Z.of_nat n) by (apply Z.pow_pos_nonneg; lia).
    assert (Hp' : 2 ^ Z.of_nat (S n) = 2 ^ Z.of_nat n * 2)
      by (rewrite Nat2Z.inj_succ, Z.pow_succ_r by lia; lia).
    rewrite shr_1_eq by (apply Z.div_pos; lia).
    f_equal.
    + rewrite Z.div_div by lia. f_equal.
      rewrite (Nat2Z.inj_succ (S n)), Z.pow_succ_r by lia. lia.
    + rewrite Hp', Z.rem_mul_r by lia.
      rewrite Zmod_odd.
      pose proof (Z.mod_pos_bound m (2 ^ Z.of_nat n) Hp).
      destruct (Z.odd (m / 2 ^ Z.of_nat n));
        destruct (Z.eqb_spec (m mod 2 ^ Z.of_nat n) 0);
        match goal with |- context [?a =? 0] => destruct (Z.eqb_spec a 0) end;
        cbn [orb negb]; try reflexivity; exfalso; nia.
Qed.

(** [shr] followed by [round_nearest_even] is [rne]. *)
Lemma shr_round (m e n : Z) :
  0 <= m ->
  exists mrs : shr_record,
    shr (Build_shr_record m false false) e n = (mrs, e + Z.max n 0) /\
    round_nearest_even (shr_m mrs) (loc_of_shr_record mrs) = rne m (Z.max n 0).
Proof.
  intros Hm. destruct n as [|p|p]; cbn [shr].
  - eexists. split; [rewrite Z.max_id, Z.add_0_r; reflexivity|].
    rewrite Z.max_id, rne_0. reflexivity.
  - rewrite iter_pos_nat. rewrite Z.max_l by lia.
    destruct (Pos2Nat.is_succ p) as [k Hk]. rewrite Hk, shr_iter_flags by exact Hm.
    eexists. split; [reflexivity|].
    assert (HpZ : Z.pos p = Z.of_nat (S k)) by lia. rewrite HpZ.
    assert (Hp : 0 < 2 ^ Z.of_nat k) by (apply Z.pow_pos_nonneg; lia).
    assert (Hp' : 2 ^ Z.of_nat (S k) = 2 ^ Z.of_nat k * 2)
      by (rewrite Nat2Z.inj_succ, Z.pow_succ_r by lia; lia).
    unfold rne. cbn [shr_m].
    set (q := m / 2 ^ Z.of_nat (S k)).
    rewrite Hp', Z.rem_mul_r, Zmod_odd by lia.
    pose proof (Z.mod_pos_bound m (2 ^ Z.of_nat k) Hp).
    destruct (Z.odd (m / 2 ^ Z.of_nat k));
      destruct (Z.eqb_spec (m mod 2 ^ Z.of_nat k) 0) as [E0|NE0];
      cbn [negb loc_of_shr_record round_nearest_even];
      match goal with |- context [?a ?= ?b] => destruct (Z.compare_spec a b) end;
      try reflexivity; exfalso; nia.
  - eexists. split; [rewrite Z.max_r, Z.add_0_r by lia; reflexivity|].
    rewrite Z.max_r, rne_0 by lia. reflexivity.
Qed.

Lemma rounded_mantissa_bounds (m : positive) (e : Z) :
  0 <= rounded_mantissa m e <= 2 ^ 24.
Proof.
  unfold rounded_mantissa. set (t := target_exponent m e).
  pose proof (digits2_pos_bounds m) as [Hlo Hhi].
  pose proof (Pos2Z.is_pos (digits2_pos m)) as Hd.
  assert (Ht : Zpos (digits2_pos m) + e - 24 <= t) by (unfold t, target_exponent; lia).
  set (a := Z.max (e - t) 0). set (n := Z.max (t - e) 0).
  assert (Hpa : 0 < 2 ^ a) by (apply Z.pow_pos_nonneg; lia).
  assert (Hpn : 0 < 2 ^ n) by (apply Z.pow_pos_nonneg; lia).
  pose proof (rne_bounds (Zpos m * 2 ^ a) n) as [Hfl Hce].
  assert (0 <= Zpos m * 2 ^ a / 2 ^ n) by (apply Z.div_pos; lia).
  assert (Zpos m * 2 ^ a / 2 ^ n < 2 ^ 24); [|lia].
  apply Z.div_lt_upper_bound; [lia|].
  rewrite <- Z.pow_add_r by lia.
  apply Z.lt_le_trans with (2 ^ Zpos (digits2_pos m) * 2 ^ a); [nia|].
  rewrite <- Z.pow_add_r by lia. apply Z.pow_le_mono_r; lia.
Qed.

(** What [binary_round_aux] returns, in terms of the two. *)
Lemma binary_round_aux_value (sx : bool) (m : positive) (e : Z) :
  (rounded_mantissa m e = 0 ->
   binary_round_aux prec emax sx (Zpos m) e loc_Exact = S754_zero sx) /\
  (0 < rounded_mantissa m e ->
   binary_round_aux prec emax sx (Zpos m) e loc_Exact = S754_infinity sx \/
   exists (m' : positive) (e' : Z),
     binary_round_aux prec emax sx (Zpos m) e loc_Exact = S754_finite sx m' e' /\
     target_exponent m e <= e' /\
     Zpos m' * 2 ^ (e' - target_exponent m e) = rounded_mantissa m e).
Proof.
  pose proof (rounded_mantissa_bounds m e) as HQ.
  unfold rounded_mantissa in *. set (t := target_exponent m e) in *.
  pose proof (Pos2Z.is_pos (digits2_pos m)) as Hd.
  assert (Htlo : -149 <= t) by (unfold t, target_exponent; lia).
  unfold binary_round_aux, shr_fexp. cbn [shr_record_of_loc Zdigits2].
  rewrite fexp_eq. fold (target_exponent m e). fold t.
  destruct (shr_round (Zpos m) e (t - e) ltac:(lia)) as (mrs & -> & ->).
  destruct (Z_lt_le_dec t e) as [Hlt|Hge].
  - (* no shift: the mantissa is returned as it is *)
    rewrite (Z.max_r (t - e) 0) in * by lia. rewrite (Z.max_l (e - t) 0) in * by lia.
    rewrite rne_0 in HQ. rewrite !rne_0, Z.add_0_r. cbn [Zdigits2]. rewrite fexp_eq.
    fold (target_exponent m e). fold t.
    destruct (shr_eq (Zpos m) e (t - e) ltac:(lia)) as (r & s & -> & _).
    rewrite (Z.max_r (t - e) 0) by lia. rewrite Z.pow_0_r, Z.div_1_r, Z.add_0_r.
    cbn [shr_m].
    assert (Hp : 0 < 2 ^ (e - t)) by (apply Z.pow_pos_nonneg; lia).
    split; [intros H0; exfalso; nia|]. intros _.
    destruct (e <=? emax - prec); [right | left; reflexivity].
    exists m, e. split; [reflexivity|]. split; [lia | reflexivity].
  - rewrite (Z.max_l (t - e) 0) in * by lia. rewrite (Z.max_r (e - t) 0) in * by lia.
    rewrite Z.pow_0_r, Z.mul_1_r in *.
    replace (e + (t - e)) with t by lia.
    set (Q := rne (Zpos m) (t - e)) in *.
    destruct Q as [|q|q] eqn:EQ; [ | | lia].
    + cbn [Zdigits2].
      destruct (shr_eq 0 t (fexp prec emax (0 + t) - t) ltac:(lia)) as (r & s & -> & _).
      cbn [shr_m]. rewrite Z.div_0_l by (apply Z.pow_nonzero; lia).
      split; [reflexivity | lia].
    + split; [discriminate|]. intros _. cbn [Zdigits2]. rewrite fexp_eq.
      pose proof (digits2_pos_bounds q) as [Hqlo Hqhi].
      pose proof (Pos2Z.is_pos (digits2_pos q)) as Hdq.
      set (t2 := Z.max (Zpos (digits2_pos q) + t - 24) (-149)).
      destruct (shr_eq (Zpos q) t (t2 - t) ltac:(lia)) as (r & s & -> & _).
      cbn [shr_m].
      destruct (Z_lt_le_dec 24 (Zpos (digits2_pos q))) as [Hbig|Hsmall].
      * assert (Hq24 : Zpos q = 2 ^ 24).
        { assert (2 ^ 24 <= 2 ^ (Zpos (digits2_pos q) - 1)) by (apply Z.pow_le_mono_r; lia).
          lia. }
        change (2 ^ 24) with (Zpos 16777216) in Hq24. injection Hq24 as ->.
        change (Zpos (digits2_pos 16777216)) with 25 in *.
        replace (Z.max (t2 - t) 0) with 1 by (unfold t2; lia).
        change (Zpos 16777216 / 2 ^ 1) with (Zpos 8388608).
        destruct (t + 1 <=? emax - prec); [right | left; reflexivity].
        exists 8388608%positive, (t + 1). split; [reflexivity|]. split; [lia|].
        replace (t + 1 - t) with 1 by lia. reflexivity.
      * replace (Z.max (t2 - t) 0) with 0 by (unfold t2; lia).
        rewrite Z.pow_0_r, Z.div_1_r, Z.add_0_r.
        destruct (t <=? emax - prec); [right | left; reflexivity].
        exists q, t. split; [reflexivity|]. split; [lia|].
        rewrite Z.sub_diag, Z.pow_0_r. lia.
Qed.

Lemma float_le_iff (m1 : positive) (e1 : Z) (m2 : positive) (e2 K : Z) :
  0 <= e1 + K -> 0 <= e2 + K ->
  float_le m1 e1 m2 e2 <-> Zpos m1 * 2 ^ (e1 + K) <= Zpos m2 * 2 ^ (e2 + K).
Proof.
  intros H1 H2. unfold float_le. set (c := Z.min e1 e2).
  assert (Hc : 0 <= c + K) by (unfold c; lia).
  assert (Hp : 0 < 2 ^ (c + K)) by (apply Z.pow_pos_nonneg; lia).
  replace (e1 + K) with (e1 - c + (c + K)) by lia.
  replace (e2 + K) with (e2 - c + (c + K)) by lia.
  assert (0 <= e1 - c /\ 0 <= e2 - c) as [Hc1 Hc2] by (unfold c; lia).
  rewrite (Z.pow_add_r 2 (e1 - c) (c + K)), (Z.pow_add_r 2 (e2 - c) (c + K)) by lia.
  rewrite !Z.mul_assoc.
  split; intros H; [apply Z.mul_le_mono_nonneg_r; lia | apply Z.mul_le_mono_pos_r in H; lia].
Qed.

Lemma shiftl_le_mono (a b t : Z) : a <= b -> Z.shiftl a t <= Z.shiftl b t.
Proof.
  intros H. destruct (Z_lt_le_dec t 0).
  - rewrite !Z.shiftl_div_pow2 by lia. apply Z.div_le_mono; [|exact H].
    apply Z.pow_pos_nonneg; lia.
  - rewrite !Z.shiftl_mul_pow2 by lia. apply Z.mul_le_mono_nonneg_r; [|exact H].
    apply Z.pow_nonneg; lia.
Qed.

Lemma shiftl_exp_mono (a t t' : Z) : 0 <= a -> t <= t' -> Z.shiftl a t <= Z.shiftl a t'.
Proof.
  intros Ha Ht. replace t' with (t' - t + t) by lia.
  rewrite <- Z.shiftl_shiftl by lia. apply shiftl_le_mono.
  rewrite Z.shiftl_mul_pow2 by lia.
  assert (0 < 2 ^ (t' - t)) by (apply Z.pow_pos_nonneg; lia). nia.
Qed.

(** Rounding is monotone: a float that is not larger rounds to an integer
    part that is not larger. *)
Lemma rounded_monotone (m1 : positive) (e1 : Z) (m2 : positive) (e2 : Z) :
  float_le m1 e1 m2 e2 ->
  Z.shiftl (rounded_mantissa m1 e1) (target_exponent m1 e1) <=
  Z.shiftl (rounded_mantissa m2 e2) (target_exponent m2 e2).
Proof.
  intros Hle.
  pose proof (digits2_pos_bounds m1) as [Hlo1 Hhi1].
  pose proof (digits2_pos_bounds m2) as [Hlo2 Hhi2].
  pose proof (Pos2Z.is_pos (digits2_pos m1)) as Hd1.
  pose proof (Pos2Z.is_pos (digits2_pos m2)) as Hd2.
  set (d1 := Zpos (digits2_pos m1)) in *. set (d2 := Zpos (digits2_pos m2)) in *.
  (* the larger float has the larger magnitude *)
  assert (Hde : d1 + e1 <= d2 + e2).
  { apply (float_le_iff _ _ _ _ (Z.abs e1 + Z.abs e2)) in Hle; [|lia|lia].
    set (K := Z.abs e1 + Z.abs e2) in *.
    assert (Hp1 : 0 < 2 ^ (e1 + K)) by (apply Z.pow_pos_nonneg; lia).
    assert (Hp2 : 0 < 2 ^ (e2 + K)) by (apply Z.pow_pos_nonneg; lia).
    assert (H : 2 ^ (d1 - 1 + (e1 + K)) < 2 ^ (d2 + (e2 + K))).
    { rewrite (Z.pow_add_r 2 (d1 - 1) (e1 + K)), (Z.pow_add_r 2 d2 (e2 + K)) by lia. nia. }
    apply Z.pow_lt_mono_r_iff in H; lia. }
  pose proof (rounded_mantissa_bounds m1 e1) as HQ1.
  pose proof (rounded_mantissa_bounds m2 e2) as HQ2.
  unfold rounded_mantissa in *.
  assert (Ht1 : target_exponent m1 e1 = Z.max (d1 + e1 - 24) (-149)) by reflexivity.
  assert (Ht2 : target_exponent m2 e2 = Z.max (d2 + e2 - 24) (-149)) by reflexivity.
  set (t1 := target_exponent m1 e1) in *. set (t2 := target_exponent m2 e2) in *.
  destruct (Z.eq_dec t1 t2) as [Et|Nt].
  - (* same exponent: compare the mantissas at a common shift *)
    rewrite <- Et in *. apply shiftl_le_mono.
    set (N := Z.max (Z.max (t1 - e1) 0) (Z.max (t1 - e2) 0)).
    rewrite <- (rne_scale (Zpos m1 * _) (Z.max (t1 - e1) 0) (N - Z.max (t1 - e1) 0))
      by (unfold N; lia).
    rewrite <- (rne_scale (Zpos m2 * _) (Z.max (t1 - e2) 0) (N - Z.max (t1 - e2) 0))
      by (unfold N; lia).
    replace (Z.max (t1 - e1) 0 + (N - Z.max (t1 - e1) 0)) with N by lia.
    replace (Z.max (t1 - e2) 0 + (N - Z.max (t1 - e2) 0)) with N by lia.
    apply rne_mono; [unfold N; lia|].
    rewrite <- !Z.mul_assoc, <- !Z.pow_add_r by (unfold N; lia).
    replace (Z.max (e1 - t1) 0 + (N - Z.max (t1 - e1) 0)) with (e1 + (N - t1)) by lia.
    replace (Z.max (e2 - t1) 0 + (N - Z.max (t1 - e2) 0)) with (e2 + (N - t1)) by lia.
    apply (float_le_iff _ _ _ _ (N - t1)); [unfold N; lia | unfold N; lia | exact Hle].
  - (* a larger exponent: a power of 2 lies between the two *)
    assert (Hlt : t1 < t2) by lia.
    assert (Ht2n : t2 = d2 + e2 - 24) by lia.
    apply Z.le_trans with (Z.shiftl (2 ^ 24) t1); [apply shiftl_le_mono; lia|].
    apply Z.le_trans with (Z.shiftl (2 ^ 23) t2).
    { change (2 ^ 24) with (Z.shiftl (2 ^ 23) 1). rewrite Z.shiftl_shiftl by lia.
      apply shiftl_exp_mono; lia. }
    apply shiftl_le_mono.
    set (a := Z.max (e2 - t2) 0) in *. set (n := Z.max (t2 - e2) 0) in *.
    assert (Hpn : 0 < 2 ^ n) by (apply Z.pow_pos_nonneg; unfold n; lia).
    pose proof (rne_bounds (Zpos m2 * 2 ^ a) n) as [Hfl _].
    apply Z.le_trans with (2 := Hfl).
    apply Z.div_le_lower_bound; [lia|].
    rewrite <- Z.pow_add_r by (unfold n; lia).
    apply Z.le_trans with (2 ^ (d2 - 1) * 2 ^ a).
    + rewrite <- Z.pow_add_r by (unfold a; lia).
      apply Z.pow_le_mono_r; [lia | unfold a, n; lia].
    + apply Z.mul_le_mono_nonneg_r; [apply Z.pow_nonneg; lia | exact Hlo2].
Qed.

Lemma mul_opp_r (x y : float32) : mul x (SFopp y) = SFopp (mul x y).
Proof.
  unfold mul.
  destruct x as [sx|sx| |sx mx ex], y as [sy|sy| |sy my ey]; cbn [SFopp SFmul];
    try rewrite binary_round_aux_opp; try reflexivity;
    destruct sx, sy; reflexivity.
Qed.

(** The integer part of a product that did not overflow. *)
Lemma truncate_binary_round_aux (sx : bool) (m : positive) (e : Z) :
  is_finite (binary_round_aux prec emax sx (Zpos m) e loc_Exact) = true ->
  truncate (binary_round_aux prec emax sx (Zpos m) e loc_Exact) =
    cond_Zopp sx (Z.shiftl (rounded_mantissa m e) (target_exponent m e)).
Proof.
  intros Hfin.
  destruct (binary_round_aux_value sx m e) as [H0 Hpos].
  pose proof (rounded_mantissa_bounds m e) as [Hlo _].
  destruct (Z.eq_dec (rounded_mantissa m e) 0) as [E|NE].
  - rewrite (H0 E), E, Z.shiftl_0_l. destruct sx; reflexivity.
  - destruct (Hpos ltac:(lia)) as [E | (m' & e' & E & Ht & Hm)];
      rewrite E in *; [discriminate|].
    cbn [truncate]. f_equal. rewrite <- Hm.
    rewrite <- (Z.shiftl_mul_pow2 (Zpos m')) by lia.
    rewrite Z.shiftl_shiftl by lia. f_equal. lia.
Qed.

(** [of_int] on 1 .. 32768. *)
Lemma of_int_positive (s : Z) :
  0 < s <= 32768 ->
  exists (m : positive) (e : Z),
    of_int s = S754_finite false m e /\ e <= 0 /\ Zpos m = s * 2 ^ (- e).
Proof.
  intros Hs. destruct (Z.eq_dec s 32768) as [->|Hne].
  - exists 8388608%positive, (-8). split; [reflexivity | split; [lia | reflexivity]].
  - destruct (of_int_short_exact s) as [[-> _] | [_ (m & e & E & He & Hm)]];
      [unfold Int.is_short, Int.SHRT_MIN, Int.SHRT_MAX; lia | lia |].
    exists m, e. rewrite E. replace (s <? 0) with false by (symmetry; apply Z.ltb_ge; lia).
    split; [reflexivity | split; [exact He | lia]].
Qed.

(** With a positive gain, a larger positive sample has a larger product. *)
Lemma truncate_mul_monotone_pos (s1 s2 : Z) (my : positive) (ey : Z) :
  0 < s1 <= s2 -> s2 <= 32768 ->
  is_finite (mul (of_int s1) (S754_finite false my ey)) = true ->
  is_finite (mul (of_int s2) (S754_finite false my ey)) = true ->
  truncate (mul (of_int s1) (S754_finite false my ey)) <=
  truncate (mul (of_int s2) (S754_finite false my ey)).
Proof.
  intros Hs1 Hs2.
  destruct (of_int_positive s1 ltac:(lia)) as (m1 & e1 & -> & He1 & Hm1).
  destruct (of_int_positive s2 ltac:(lia)) as (m2 & e2 & -> & He2 & Hm2).
  unfold mul. cbn [SFmul xorb]. intros Hf1 Hf2.
  rewrite !truncate_binary_round_aux by assumption. cbn [cond_Zopp].
  apply rounded_monotone.
  set (K := Z.abs e1 + Z.abs e2 + Z.abs ey).
  apply (float_le_iff _ _ _ _ K); [unfold K; lia | unfold K; lia |].
  rewrite !Pos2Z.inj_mul, Hm1, Hm2.
  assert (Hp : 0 < 2 ^ (ey + K)) by (apply Z.pow_pos_nonneg; unfold K; lia).
  assert (E1 : 2 ^ (- e1) * 2 ^ (e1 + ey + K) = 2 ^ (ey + K))
    by (rewrite <- Z.pow_add_r by (unfold K; lia); f_equal; lia).
  assert (E2 : 2 ^ (- e2) * 2 ^ (e2 + ey + K) = 2 ^ (ey + K))
    by (rewrite <- Z.pow_add_r by (unfold K; lia); f_equal; lia).
  replace (s1 * 2 ^ (- e1) * Zpos my * 2 ^ (e1 + ey + K))
    with (s1 * Zpos my * (2 ^ (- e1) * 2 ^ (e1 + ey + K))) by ring.
  replace (s2 * 2 ^ (- e2) * Zpos my * 2 ^ (e2 + ey + K))
    with (s2 * Zpos my * (2 ^ (- e2) * 2 ^ (e2 + ey + K))) by ring.
  rewrite E1, E2. nia.
Qed.

Lemma truncate_mul_sign_pos (s : Z) (my : positive) (ey : Z) :
  Int.is_short s ->
  (0 <= s -> 0 <= truncate (mul (of_int s) (S754_finite false my ey))) /\
  (s <= 0 -> truncate (mul (of_int s) (S754_finite false my ey)) <= 0).
Proof.
  intros Hs.
  destruct (of_int_short_exact s Hs) as [[-> ->] | [Hnz (mx & ex & -> & _)]];
    [split; intros _; cbn; lia|].
  unfold mul. cbn [SFmul]. rewrite xorb_false_r.
  destruct (binary_round_aux_cases (s <? 0) (Zpos (mx * my)) (ex + ey) loc_Exact)
    as [E | [E | [E | (m' & e' & E)]]]; rewrite E; cbn [truncate]; try lia.
  pose proof (shiftl_pos_nonneg m' e').
  destruct (Z.ltb_spec s 0); cbn [cond_Zopp]; lia.
Qed.

(** With a positive gain the integer part of the product grows with the
    sample, over all [short]s. *)
Lemma truncate_mul_monotone_pos_gain (s1 s2 : Z) (my : positive) (ey : Z) :
  Int.is_short s1 -> Int.is_short s2 -> s1 <= s2 ->
  is_finite (mul (of_int s1) (S754_finite false my ey)) = true ->
  is_finite (mul (of_int s2) (S754_finite false my ey)) = true ->
  truncate (mul (of_int s1) (S754_finite false my ey)) <=
  truncate (mul (of_int s2) (S754_finite false my ey)).
Proof.
  intros H1 H2 Hle Hf1 Hf2.
  pose proof H1 as H1'. pose proof H2 as H2'.
  unfold Int.is_short, Int.SHRT_MIN, Int.SHRT_MAX in H1', H2'.
  destruct (Z_lt_le_dec 0 s1) as [Hpos|Hnp].
  - apply truncate_mul_monotone_pos; [lia | lia | exact Hf1 | exact Hf2].
  - destruct (Z_lt_le_dec s2 0) as [Hneg|Hnn].
    + replace s1 with (- - s1) in * by lia. replace s2 with (- - s2) in * by lia.
      rewrite (of_int_opp (- s1)), (of_int_opp (- s2)) in * by lia.
      rewrite !mul_opp_l, !truncate_opp in *. rewrite !is_finite_opp in *.
      apply Z.opp_le_mono. rewrite !Z.opp_involutive.
      apply truncate_mul_monotone_pos; [lia | lia | exact Hf2 | exact Hf1].
    + destruct (truncate_mul_sign_pos s1 my ey H1) as [_ Hn1].
      destruct (truncate_mul_sign_pos s2 my ey H2) as [Hp2 _].
      specialize (Hn1 Hnp). specialize (Hp2 Hnn). lia.
Qed.

(** Whatever the sign of the finite gain: the integer part of the product is
    monotone in the sample, growing for a gain that is not negative and
    falling for one that is not positive. *)
Lemma truncate_mul_monotone (s1 s2 : Z) (gain : float32) :
  Int.is_short s1 -> Int.is_short s2 -> s1 <= s2 ->
  is_finite gain = true ->
  is_finite (mul (of_int s1) gain) = true ->
  is_finite (mul (of_int s2) gain) = true ->
  ((0 <= to_Q gain)%Q ->
   truncate (mul (of_int s1) gain) <= truncate (mul (of_int s2) gain)) /\
  ((to_Q gain <= 0)%Q ->
   truncate (mul (of_int s2) gain) <= truncate (mul (of_int s1) gain)).
Proof.
  intros H1 H2 Hle Hfin Hf1 Hf2.
  destruct gain as [sy|sy| |sy my ey]; try discriminate.
  - assert (E : forall s, Int.is_short s -> truncate (mul (of_int s) (S754_zero sy)) = 0).
    { intros s Hs.
      destruct (of_int_short_exact s Hs) as [[_ ->] | [_ (m & e & -> & _)]]; reflexivity. }
    rewrite !E by assumption. split; intros _; lia.
  - assert (Hp : forall k : Z, 0 < 2 ^ Z.max k 0) by (intros k; apply Z.pow_pos_nonneg; lia).
    pose proof (Hp ey) as Hp1. pose proof (Hp (- ey)) as Hp2.
    pose proof (Pos2Z.is_pos my) as Hmy.
    destruct sy.
    + change (S754_finite true my ey) with (SFopp (S754_finite false my ey)) in *.
      rewrite !mul_opp_r, !truncate_opp in *. rewrite !is_finite_opp in *.
      split; intros Hg.
      * exfalso. cbn [SFopp to_Q negb cond_Zopp] in Hg.
        change 0%Q with (inject_Z 0) in Hg. apply Qge_scaled in Hg.
        unfold scaled_le in Hg. nia.
      * apply Z.opp_le_mono. rewrite !Z.opp_involutive.
        apply truncate_mul_monotone_pos_gain; assumption.
    + split; intros Hg.
      * apply truncate_mul_monotone_pos_gain; assumption.
      * exfalso. cbn [to_Q cond_Zopp] in Hg.
        change 0%Q with (inject_Z 0) in Hg. apply Qle_scaled in Hg.
        unfold scaled_le in Hg. nia.
Qed.

(** ** Products between two integers *)

(** Integer bounds on the exact product bound the [int] the binary32 product
    converts to: rounding to nearest never crosses an integer of magnitude
    at most 2^23, all of which are binary32 numbers. *)
Lemma mul_short_between (s : Z) (gain : float32) (A B : Z) :
  Int.is_short s ->
  is_finite gain = true ->
  - 2 ^ 23 <= A -> B <= 2 ^ 23 ->
  (inject_Z A <= inject_Z s * to_Q gain)%Q ->
  (inject_Z s * to_Q gain <= inject_Z B)%Q ->
  exists z : Z, to_int (mul (of_int s) gain) = Some z /\ A <= z <= B.
Proof.
  intros Hs Hfin HA HB Hge Hle.
  destruct gain as [sy|sy| |sy my ey]; try discriminate.
  - exists 0. split.
    + destruct (of_int_short_exact s Hs) as [[_ ->] | [_ (m & e & -> & _)]]; reflexivity.
    + revert Hle Hge; unfold Qle; cbn [to_Q Qmult Qnum Qden inject_Z]; lia.
  - cbn [to_Q] in Hle, Hge. rewrite Qmult_assoc, <- inject_Z_mult in Hle, Hge.
    apply Qle_scaled in Hle. apply Qge_scaled in Hge.
    assert (Hp : forall k : Z, 0 < 2 ^ Z.max k 0) by (intros k; apply Z.pow_pos_nonneg; lia).
    pose proof (Hp ey) as Hp1. pose proof (Hp (- ey)) as Hp2.
    pose proof (Pos2Z.is_pos my) as Hmy.
    destruct (of_int_short_exact s Hs) as [[-> ->] | [Hnz (mx & ex & -> & Hex & Hmx)]].
    + exists 0. split; [reflexivity|]. unfold scaled_le in *. nia.
    + (* the magnitude of the product lies between those of the bounds on
         its side of zero *)
      set (sg := xorb (s <? 0) sy).
      set (lo := if sg then Z.max (- B) 0 else Z.max A 0).
      set (hi := if sg then - A else B).
      assert (Hhi : 0 < hi <= 2 ^ 23 /\ scaled_le (Z.abs s * Zpos my) ey hi).
      { unfold hi, sg, scaled_le in *.
        destruct (Z.ltb_spec s 0), sy; cbn [xorb cond_Zopp] in *; split; nia. }
      destruct Hhi as [Hhi Hmle].
      assert (Hlo : 0 <= lo <= hi /\ (0 < lo -> scaled_le (- (Z.abs s * Zpos my)) ey (- lo))).
      { unfold lo, hi, sg, scaled_le in *.
        destruct (Z.ltb_spec s 0), sy; cbn [xorb cond_Zopp] in *; split; nia. }
      destruct Hlo as [Hlo Hmge].
      assert (Hbound : forall M : Z, lo <= M <= hi ->
                A <= cond_Zopp sg M <= B).
      { intros M HM. unfold lo, hi in HM. destruct sg; cbn [cond_Zopp]; lia. }
      destruct (mul_finite_le (s <? 0) sy mx my ex ey (Z.abs s) hi Hex Hmx
                  ltac:(lia) Hmle) as [E | (m & e & E & Hup)].
      * exists 0. rewrite E. split; [reflexivity|].
        destruct (Z_lt_le_dec 0 lo) as [Hpos|Hnp].
        -- destruct (mul_finite_ge (s <? 0) sy mx my ex ey (Z.abs s) lo Hex Hmx
                       ltac:(lia) (Hmge Hpos)) as [[sg' E'] | (m' & e' & E' & _)];
             rewrite E in E'; discriminate.
        -- replace 0 with (cond_Zopp sg 0) by (destruct sg; reflexivity).
           apply Hbound. lia.
      * exists (cond_Zopp sg (Z.shiftl (Zpos m) e)). rewrite E. split.
        -- apply to_int_finite. lia.
        -- apply Hbound. split; [|lia].
           destruct (Z_lt_le_dec 0 lo) as [Hpos|Hnp]; [|lia].
           destruct (mul_finite_ge (s <? 0) sy mx my ex ey (Z.abs s) lo Hex Hmx
                       ltac:(lia) (Hmge Hpos)) as [[sg' E'] | (m' & e' & E' & Hdown)];
             rewrite E in E'; [discriminate|].
           injection E' as <- <-. exact Hdown.
Qed.

(** ** A pass takes [length] iterations *)

(** A pass that is defined on the first [length] samples is made in exactly
    [length] iterations: the call returns with it, more fuel changes
    nothing, and with less fuel the loop has not finished. *)
Lemma apply_gain_pass_exact
    (samples : list Z) (len : N) (gain : float32) (out : list Z) :
  (len < Int.SIZE_MOD)%N ->
  scale_prefix gain (N.to_nat len) samples = Some out ->
  returns (apply_gain samples len gain) out (pass_trace 0 (N.to_nat len)) /\
  (forall fuel : nat, (N.to_nat len <= fuel)%nat ->
     returns (apply_gain_fuel fuel samples len gain) out (pass_trace 0 (N.to_nat len))) /\
  (forall fuel : nat, (fuel < N.to_nat len)%nat ->
     apply_gain_fuel fuel samples len gain = OutOfFuel).
Proof.
  intros Hlen Hout. split; [|split].
  - unfold returns. rewrite apply_gain_eq, Hout by exact Hlen. reflexivity.
  - intros fuel Hfuel. unfold returns.
    rewrite apply_gain_fuel_eq, Hout by assumption. reflexivity.
  - intros fuel Hfuel. unfold apply_gain_fuel.
    change (Machine samples []) with (Machine ([] ++ samples) []).
    rewrite (for_loop_short_fuel gain len Hlen fuel (N.to_nat len) 0%N [] samples []);
      [| simpl; lia | reflexivity | exact Hfuel].
    destruct (scale_prefix_shorter gain _ fuel _ _ Hout ltac:(lia)) as [r ->].
    reflexivity.
Qed.

(** * The claims *)

(** C1. Whenever a call of [apply_gain] returns, every sample of the first
    [length] positions of the buffer is in [-32768, 32767], for any buffer,
    any [size_t] length and any gain. *)
Theorem apply_gain_samples_in_range
    (samples : list Z) (len : N) (gain : float32) (out : list Z) (tr : list access) :
  (len < Int.SIZE_MOD)%N ->
  returns (apply_gain samples len gain) out tr ->
  forall i : N, (i < len)%N ->
    exists v : Z, out !! N.to_nat i = Some v /\ -32768 <= v <= 32767.
Proof.
  intros Hlen Hret i Hi.
  destruct (apply_gain_returns_inv _ _ _ _ _ Hlen Hret) as [Hout _].
  destruct (scale_prefix_lookup_lt gain _ samples out (N.to_nat i) Hout ltac:(lia))
    as (s & v & _ & Hv & Hlook).
  exists v. split; [exact Hlook|].
  unfold scaled in Hv. destruct (to_int (mul (of_int s) gain)); [|discriminate].
  injection Hv as <-. apply static_cast_short_range.
Qed.

Lemma apply_gain_samples_in_range_witness :
  exists v : Z, [2000; -2000; 32767; -32768] !! N.to_nat 2 = Some v /\ -32768 <= v <= 32767.
Proof.
  apply (apply_gain_samples_in_range [1000; -1000; 32000; -32000] 4 two
           [2000; -2000; 32767; -32768]
           [Load 0; Store 0; Load 1; Store 1; Load 2; Store 2; Load 3; Store 3]%N).
  - reflexivity.
  - reflexivity.
  - reflexivity.
Defined.

(** C2, as stated, fails: with the buffer [10] and the gain 0.7f (exactly
    11744051 / 2^24) the exact product 6.99999988... lies in [-32768, 32767]
    and truncates to 6, but the call stores 7, because the product is first
    rounded to binary32, which gives 7.0. *)
Lemma apply_gain_exact_truncation_counterexample :
  valid f0_7 = true /\ is_finite f0_7 = true /\
  (inject_Z (-32768) <= inject_Z 10 * to_Q f0_7 <= inject_Z 32767)%Q /\
  Qtruncate (inject_Z 10 * to_Q f0_7) = 6 /\
  returns (apply_gain [10] 1 f0_7) [7] [Load 0; Store 0]%N /\
  [7] !! N.to_nat 0 <> Some (Qtruncate (inject_Z 10 * to_Q f0_7)).
Proof.
  repeat split; try reflexivity; try discriminate.
Qed.

(** C2, amended. For a [short] sample [s] and a finite gain whose exact
    product with [s] lies in [-32768, 32767], the binary32 product
    fl32(s * gain), the product rounded to the nearest binary32 number,
    converts to [int], its truncation toward zero lies in [-32768, 32767],
    and that truncation is the value stored: a call on the one-sample buffer
    [s] returns with it, and so has any call that returns, at each position
    of the processed prefix that held [s]. *)
Theorem apply_gain_stores_truncated_binary32_product (s : Z) (gain : float32) :
  Int.is_short s ->
  is_finite gain = true ->
  (inject_Z (-32768) <= inject_Z s * to_Q gain <= inject_Z 32767)%Q ->
  to_int (mul (of_int s) gain) = Some (truncate (mul (of_int s) gain)) /\
  Int.is_short (truncate (mul (of_int s) gain)) /\
  returns (apply_gain [s] 1 gain) [truncate (mul (of_int s) gain)] [Load 0; Store 0]%N /\
  forall (samples : list Z) (len : N) (out : list Z) (tr : list access) (i : N),
    (len < Int.SIZE_MOD)%N ->
    returns (apply_gain samples len gain) out tr ->
    (i < len)%N ->
    samples !! N.to_nat i = Some s ->
    out !! N.to_nat i = Some (truncate (mul (of_int s) gain)).
Proof.
  intros Hshort Hfin Hrange.
  destruct (mul_short_in_range s gain Hshort Hfin Hrange) as [Hf Htr].
  assert (Hconv : to_int (mul (of_int s) gain) = Some (truncate (mul (of_int s) gain))).
  { unfold to_int. rewrite Hf.
    replace (Int.is_intb (truncate (mul (of_int s) gain))) with true; [reflexivity|].
    symmetry. unfold Int.is_intb, Int.INT_MIN, Int.INT_MAX.
    unfold Int.is_short, Int.SHRT_MIN, Int.SHRT_MAX in Htr.
    apply andb_true_intro. split; apply Z.leb_le; lia. }
  assert (Hscaled : scaled gain s = Some (truncate (mul (of_int s) gain))).
  { unfold scaled. rewrite Hconv, clamp_id by exact Htr.
    rewrite static_cast_short_id by exact Htr. reflexivity. }
  split; [exact Hconv|]. split; [exact Htr|]. split.
  - unfold returns. rewrite apply_gain_eq by reflexivity.
    change (N.to_nat 1) with 1%nat. cbn [scale_prefix]. rewrite Hscaled. reflexivity.
  - intros samples len out tr i Hlen Hret Hi Hs.
    destruct (apply_gain_returns_inv _ _ _ _ _ Hlen Hret) as [Hout _].
    destruct (scale_prefix_lookup_lt gain _ samples out (N.to_nat i) Hout ltac:(lia))
      as (s' & v & Hs' & Hv & Hlook).
    rewrite Hs in Hs'. injection Hs' as <-. rewrite Hlook, <- Hv. exact Hscaled.
Qed.

Lemma apply_gain_stores_truncated_binary32_product_witness :
  to_int (mul (of_int 10) f0_7) = Some (truncate (mul (of_int 10) f0_7)) /\
  Int.is_short (truncate (mul (of_int 10) f0_7)) /\
  returns (apply_gain [10] 1 f0_7) [truncate (mul (of_int 10) f0_7)] [Load 0; Store 0]%N /\
  forall (samples : list Z) (len : N) (out : list Z) (tr : list access) (i : N),
    (len < Int.SIZE_MOD)%N ->
    returns (apply_gain samples len f0_7) out tr ->
    (i < len)%N ->
    samples !! N.to_nat i = Some 10 ->
    out !! N.to_nat i = Some (truncate (mul (of_int 10) f0_7)).
Proof.
  apply (apply_gain_stores_truncated_binary32_product 10 f0_7).
  - unfold Int.is_short, Int.SHRT_MIN, Int.SHRT_MAX. lia.
  - reflexivity.
  - split; vm_compute; discriminate.
Defined.

(** C3, at an input where it fails: the sample 32767 and the gain 100000.0
    have the product 3276700000 > 32767, whose binary32 rounding 3276699904
    does not fit in [int]; the conversion of line 5 is undefined there, before
    the clamp of lines 6-7 is reached, so no 32767 is stored. *)
Theorem apply_gain_large_product_undefined :
  valid f100000 = true /\ is_finite f100000 = true /\
  (inject_Z 32767 < inject_Z 32767 * to_Q f100000)%Q /\
  truncate (mul (of_int 32767) f100000) = 3276699904 /\
  to_int (mul (of_int 32767) f100000) = None /\
  apply_gain [32767] 1 f100000 = Undefined.
Proof.
  repeat split; reflexivity.
Qed.

(** X1. What does hold of the saturation: in a call that returns, a [short]
    sample of the processed prefix whose exact product with the finite gain
    is above 32767 has become 32767, and one whose product is below -32768
    has become -32768. *)
Lemma apply_gain_saturates_when_returning
    (samples : list Z) (len : N) (gain : float32) (out : list Z) (tr : list access)
    (i : N) (s : Z) :
  (len < Int.SIZE_MOD)%N ->
  returns (apply_gain samples len gain) out tr ->
  (i < len)%N ->
  samples !! N.to_nat i = Some s ->
  Int.is_short s ->
  is_finite gain = true ->
  ((inject_Z 32767 < inject_Z s * to_Q gain)%Q -> out !! N.to_nat i = Some 32767) /\
  ((inject_Z s * to_Q gain < inject_Z (-32768))%Q -> out !! N.to_nat i = Some (-32768)).
Proof.
  intros Hlen Hret Hi Hs Hshort Hfin.
  destruct (apply_gain_returns_inv _ _ _ _ _ Hlen Hret) as [Hout _].
  destruct (scale_prefix_lookup_lt gain _ samples out (N.to_nat i) Hout ltac:(lia))
    as (s' & v & Hs' & Hv & Hlook).
  rewrite Hs in Hs'. injection Hs' as <-. rewrite Hlook.
  unfold scaled in Hv. destruct (to_int (mul (of_int s) gain)) as [z|] eqn:Hz; [|discriminate].
  injection Hv as <-.
  destruct (mul_short_out_of_range s gain z Hshort Hfin Hz) as [Hhi Hlo].
  split; intros H; f_equal.
  - specialize (Hhi H). destruct (Z.eq_dec z 32767) as [->|Hne]; [reflexivity|].
    rewrite clamp_above by lia. reflexivity.
  - specialize (Hlo H). destruct (Z.eq_dec z (-32768)) as [->|Hne]; [reflexivity|].
    rewrite clamp_below by lia. reflexivity.
Qed.

(** C4. With gain 1.0 a call on a buffer of [short]s that holds at least
    [length] of them returns and leaves every sample as it was. *)
Theorem apply_gain_one_unchanged (samples : list Z) (len : N) :
  (len < Int.SIZE_MOD)%N ->
  Forall Int.is_short samples ->
  (N.to_nat len <= length samples)%nat ->
  returns (apply_gain samples len one) samples (pass_trace 0 (N.to_nat len)).
Proof.
  intros Hlen Hshort Hcap. unfold returns.
  rewrite apply_gain_eq by exact Hlen.
  rewrite scale_prefix_fixed; [reflexivity | exact Hcap |].
  intros j s _ Hs. apply scaled_one.
  rewrite Forall_lookup in Hshort. exact (Hshort j s Hs).
Qed.

Lemma apply_gain_one_unchanged_witness :
  returns (apply_gain [1000; -1000; 32767; -32768] 3 one)
          [1000; -1000; 32767; -32768] (pass_trace 0 (N.to_nat 3)).
Proof.
  apply (apply_gain_one_unchanged [1000; -1000; 32767; -32768] 3).
  - reflexivity.
  - unfold Int.is_short, Int.SHRT_MIN, Int.SHRT_MAX.
    repeat (apply Forall_cons; split; [lia|]). apply Forall_nil. exact I.
  - simpl. lia.
Defined.

(** C5. With gain 0.0 a call on a buffer of [short]s that holds at least
    [length] of them returns with 0 in each of the first [length] positions,
    whatever the sign of the sample that was there. *)
Theorem apply_gain_zero_clears (samples : list Z) (len : N) :
  (len < Int.SIZE_MOD)%N ->
  Forall Int.is_short samples ->
  (N.to_nat len <= length samples)%nat ->
  exists out : list Z,
    returns (apply_gain samples len zero) out (pass_trace 0 (N.to_nat len)) /\
    forall i : N, (i < len)%N -> out !! N.to_nat i = Some 0.
Proof.
  intros Hlen Hshort Hcap. unfold returns.
  rewrite apply_gain_eq by exact Hlen.
  rewrite Forall_lookup in Hshort.
  destruct (scale_prefix_defined zero (N.to_nat len) samples Hcap) as [out Hout].
  { intros j s _ Hs. rewrite (scaled_zero s (Hshort j s Hs)). eexists; reflexivity. }
  rewrite Hout. exists out. split; [reflexivity|].
  intros i Hi.
  destruct (scale_prefix_lookup_lt zero _ samples out (N.to_nat i) Hout ltac:(lia))
    as (s & v & Hs & Hv & Hlook).
  rewrite (scaled_zero s (Hshort _ s Hs)) in Hv. injection Hv as <-. exact Hlook.
Qed.

Lemma apply_gain_zero_clears_witness :
  exists out : list Z,
    returns (apply_gain [1000; -1000; -32768; 7] 3 zero) out (pass_trace 0 (N.to_nat 3)) /\
    forall i : N, (i < 3)%N -> out !! N.to_nat i = Some 0.
Proof.
  apply (apply_gain_zero_clears [1000; -1000; -32768; 7] 3).
  - reflexivity.
  - unfold Int.is_short, Int.SHRT_MIN, Int.SHRT_MAX.
    repeat (apply Forall_cons; split; [lia|]). apply Forall_nil. exact I.
  - simpl. lia.
Defined.

(** C6. A call that returns has kept the size of the buffer and every element
    at an index at or beyond [length], and has accessed indices below
    [length] only; and a call with [length = 0] returns for any buffer (the
    empty one too) and any gain, with the buffer as it was and no access. *)
Theorem apply_gain_frame (samples : list Z) (len : N) (gain : float32) :
  (forall (out : list Z) (tr : list access),
     (len < Int.SIZE_MOD)%N ->
     returns (apply_gain samples len gain) out tr ->
     length out = length samples /\
     (forall j : nat, (N.to_nat len <= j)%nat -> out !! j = samples !! j) /\
     (forall a : access, a ∈ tr -> (access_index a < len)%N)) /\
  returns (apply_gain samples 0 gain) samples [].
Proof.
  split; [|reflexivity].
  intros out tr Hlen Hret.
  destruct (apply_gain_returns_inv _ _ _ _ _ Hlen Hret) as [Hout ->].
  split; [exact (proj1 (scale_prefix_length gain _ _ _ Hout))|].
  split.
  - intros j Hj. exact (scale_prefix_lookup_ge gain _ _ _ j Hout Hj).
  - intros a Ha. apply pass_trace_index in Ha. lia.
Qed.

Lemma apply_gain_frame_witness :
  (forall (out : list Z) (tr : list access),
     (2 < Int.SIZE_MOD)%N ->
     returns (apply_gain [100; -7; 9; 32000] 2 two) out tr ->
     length out = length [100; -7; 9; 32000] /\
     (forall j : nat, (N.to_nat 2 <= j)%nat -> out !! j = [100; -7; 9; 32000] !! j) /\
     (forall a : access, a ∈ tr -> (access_index a < 2)%N)) /\
  returns (apply_gain [100; -7; 9; 32000] 0 two) [100; -7; 9; 32000] [].
Proof.
  exact (apply_gain_frame [100; -7; 9; 32000] 2 two).
Defined.

(** C7. The two scenarios: [1000, -1000, 32000, -32000] with gain 2.0 becomes
    [2000, -2000, 32767, -32768], and [100] with gain 0.5 becomes [50]. *)
Theorem apply_gain_scenarios :
  returns (apply_gain [1000; -1000; 32000; -32000] 4 two)
          [2000; -2000; 32767; -32768]
          [Load 0; Store 0; Load 1; Store 1; Load 2; Store 2; Load 3; Store 3]%N /\
  returns (apply_gain [100] 1 half) [50] [Load 0; Store 0]%N.
Proof.
  split; reflexivity.
Qed.

(** C8. Two calls with equal buffers, lengths and gains have equal outcomes;
    more than that, the outcome of a call depends on the first [length]
    samples only and touches nothing else: on two buffers that agree on their
    first [length] elements, a call that returns on the one returns on the
    other after the same accesses, with the same first [length] elements, the
    rest of each buffer being what it was. *)
Theorem apply_gain_deterministic
    (samples1 samples2 : list Z) (len1 len2 : N) (gain1 gain2 : float32) :
  (samples1 = samples2 -> len1 = len2 -> gain1 = gain2 ->
   apply_gain samples1 len1 gain1 = apply_gain samples2 len2 gain2) /\
  (forall (out1 : list Z) (tr : list access),
     (len1 < Int.SIZE_MOD)%N ->
     (N.to_nat len1 <= length samples2)%nat ->
     take (N.to_nat len1) samples1 = take (N.to_nat len1) samples2 ->
     returns (apply_gain samples1 len1 gain1) out1 tr ->
     exists out2 : list Z,
       returns (apply_gain samples2 len1 gain1) out2 tr /\
       take (N.to_nat len1) out2 = take (N.to_nat len1) out1 /\
       drop (N.to_nat len1) out1 = drop (N.to_nat len1) samples1 /\
       drop (N.to_nat len1) out2 = drop (N.to_nat len1) samples2).
Proof.
  split; [intros -> -> ->; reflexivity|].
  intros out1 tr Hlen Hcap Htake Hret.
  destruct (apply_gain_returns_inv _ _ _ _ _ Hlen Hret) as [Hout ->].
  destruct (scale_prefix_take gain1 _ _ _ Hout) as [Hpre Hd1].
  destruct (scale_prefix_defined gain1 (N.to_nat len1) samples2 Hcap) as [out2 Hout2].
  { intros j s Hj Hs.
    destruct (scale_prefix_lookup_lt gain1 _ _ _ j Hout Hj) as (s' & v & Hs' & Hv & _).
    assert (Heq : samples1 !! j = samples2 !! j).
    { rewrite <- (lookup_take_lt samples1 (N.to_nat len1) j Hj),
              <- (lookup_take_lt samples2 (N.to_nat len1) j Hj), Htake. reflexivity. }
    rewrite Hs', Hs in Heq. injection Heq as ->. eexists; exact Hv. }
  destruct (scale_prefix_take gain1 _ _ _ Hout2) as [Hpre2 Hd2].
  exists out2. unfold returns. rewrite apply_gain_eq, Hout2 by exact Hlen.
  split; [reflexivity|]. split; [|split; assumption].
  rewrite Htake, Hpre2 in Hpre. injection Hpre as Hpre. exact Hpre.
Qed.

Lemma apply_gain_deterministic_witness :
  exists out2 : list Z,
    returns (apply_gain [100; -7; 9] 2 two) out2 [Load 0; Store 0; Load 1; Store 1]%N /\
    take (N.to_nat 2) out2 = take (N.to_nat 2) [200; -14; 5; 6] /\
    drop (N.to_nat 2) [200; -14; 5; 6] = drop (N.to_nat 2) [100; -7; 5; 6] /\
    drop (N.to_nat 2) out2 = drop (N.to_nat 2) [100; -7; 9].
Proof.
  apply (proj2 (apply_gain_deterministic [100; -7; 5; 6] [100; -7; 9] 2 2 two two)).
  - reflexivity.
  - simpl. lia.
  - reflexivity.
  - reflexivity.
Defined.

(** C9, at an input where it fails. The buffer [1000; 32767; 5] holds the
    three [short]s the call is asked to process and the gain 100000.0 is
    finite. The first iteration is made (100000000 is clamped to 32767), but
    in the second the product 3276699904 of line 5 does not fit in [int]:
    its conversion is undefined, so the pass of three iterations is not
    made, whatever the number of iterations the loop is allowed. *)
Theorem apply_gain_pass_cut_short :
  Forall Int.is_short [1000; 32767; 5] /\
  is_finite f100000 = true /\
  returns (apply_gain [1000; 32767; 5] 1 f100000) [32767; 32767; 5] [Load 0; Store 0]%N /\
  to_int (mul (of_int 32767) f100000) = None /\
  apply_gain [1000; 32767; 5] 3 f100000 = Undefined /\
  (forall (fuel : nat) (out : list Z) (tr : list access),
     ~ returns (apply_gain_fuel fuel [1000; 32767; 5] 3 f100000) out tr).
Proof.
  split; [|split; [|split; [|split; [|split]]]]; try reflexivity.
  - unfold Int.is_short, Int.SHRT_MIN, Int.SHRT_MAX.
    repeat (apply Forall_cons; split; [lia|]). apply Forall_nil. exact I.
  - intros fuel out tr. unfold returns.
    destruct fuel as [|[|fuel]]; [discriminate | discriminate |].
    assert (E : apply_gain_fuel (S (S fuel)) [1000; 32767; 5] 3 f100000 = Undefined)
      by reflexivity.
    rewrite E. discriminate.
Qed.

(** C10. The product is the binary32 one. A call on a buffer that holds at
    least [length] samples returns when the binary32 product of every
    processed sample (converted to [float]) with the gain converts to [int];
    and in a call that returns, each of these products does convert, and the
    value stored is its truncation toward zero, clamped and narrowed to
    [short]. This is not the truncation of the exact product: for the sample
    10 and the gain 0.7f (11744051 / 2^24) the binary32 product is 7.0 and 7
    is stored, while the exact product 6.99999988... truncates to 6. *)
Theorem apply_gain_uses_binary32_product
    (samples : list Z) (len : N) (gain : float32) :
  (len < Int.SIZE_MOD)%N ->
  ((N.to_nat len <= length samples)%nat ->
   (forall (i : N) (s : Z),
      (i < len)%N -> samples !! N.to_nat i = Some s ->
      is_Some (to_int (mul (of_int s) gain))) ->
   exists out : list Z,
     returns (apply_gain samples len gain) out (pass_trace 0 (N.to_nat len))) /\
  (forall (out : list Z) (tr : list access) (i : N) (s : Z),
     returns (apply_gain samples len gain) out tr ->
     (i < len)%N ->
     samples !! N.to_nat i = Some s ->
     to_int (mul (of_int s) gain) = Some (truncate (mul (of_int s) gain)) /\
     out !! N.to_nat i =
       Some (Int.static_cast_short (clamp (truncate (mul (of_int s) gain))))) /\
  (mul (of_int 10) f0_7 = S754_finite false 14680064 (-21) /\
   truncate (mul (of_int 10) f0_7) = 7 /\
   Qtruncate (inject_Z 10 * to_Q f0_7) = 6 /\
   returns (apply_gain [10] 1 f0_7) [7] [Load 0; Store 0]%N).
Proof.
  intros Hlen. split; [|split; [|repeat split; reflexivity]].
  - intros Hcap Hconv. unfold returns. rewrite apply_gain_eq by exact Hlen.
    destruct (scale_prefix_defined gain (N.to_nat len) samples Hcap) as [out ->];
      [|exists out; reflexivity].
    intros j s Hj Hs. unfold scaled.
    destruct (Hconv (N.of_nat j) s ltac:(lia)) as [z ->];
      [rewrite Nat2N.id; exact Hs | eexists; reflexivity].
  - intros out tr i s Hret Hi Hs.
    destruct (apply_gain_returns_inv _ _ _ _ _ Hlen Hret) as [Hout _].
    destruct (scale_prefix_lookup_lt gain _ samples out (N.to_nat i) Hout ltac:(lia))
      as (s' & v & Hs' & Hv & Hlook).
    rewrite Hs in Hs'. injection Hs' as <-.
    unfold scaled in Hv.
    destruct (to_int (mul (of_int s) gain)) as [z|] eqn:Hz; [|discriminate].
    injection Hv as <-.
    assert (Hzt : z = truncate (mul (of_int s) gain)).
    { unfold to_int in Hz.
      destruct (is_finite (mul (of_int s) gain) && Int.is_intb (truncate (mul (of_int s) gain)));
        [injection Hz as <-; reflexivity | discriminate]. }
    rewrite <- Hzt. split; [reflexivity | exact Hlook].
Qed.

Lemma apply_gain_uses_binary32_product_witness :
  to_int (mul (of_int (-1000)) two) = Some (truncate (mul (of_int (-1000)) two)) /\
  [2000; -2000; 32767; -32768] !! N.to_nat 1 =
    Some (Int.static_cast_short (clamp (truncate (mul (of_int (-1000)) two)))).
Proof.
  apply (proj1 (proj2 (apply_gain_uses_binary32_product [1000; -1000; 32000; -32000] 4 two
                         ltac:(reflexivity)))
               [2000; -2000; 32767; -32768]
               [Load 0; Store 0; Load 1; Store 1; Load 2; Store 2; Load 3; Store 3]%N
               1%N (-1000)).
  - reflexivity.
  - reflexivity.
  - reflexivity.
Defined.

(** * Further properties of [apply_gain] *)

(** A sample that saturates, for X1: 32000 doubled is stored as 32767. *)
Lemma apply_gain_saturates_when_returning_witness :
  ((inject_Z 32767 < inject_Z 32000 * to_Q two)%Q ->
   [2000; -2000; 32767; -32768] !! N.to_nat 2 = Some 32767) /\
  ((inject_Z 32000 * to_Q two < inject_Z (-32768))%Q ->
   [2000; -2000; 32767; -32768] !! N.to_nat 2 = Some (-32768)).
Proof.
  apply (apply_gain_saturates_when_returning [1000; -1000; 32000; -32000] 4 two
           [2000; -2000; 32767; -32768]
           [Load 0; Store 0; Load 1; Store 1; Load 2; Store 2; Load 3; Store 3]%N
           2 32000).
  - reflexivity.
  - reflexivity.
  - reflexivity.
  - reflexivity.
  - unfold Int.is_short, Int.SHRT_MIN, Int.SHRT_MAX. lia.
  - reflexivity.
Defined.

(** X2. A [length] beyond the end of the buffer is undefined behaviour: the
    loop of lines 4-9 has no bound other than [length], so it reads
    [samples[i]] past the last element (if an unconvertible product has not
    stopped it before). *)
Theorem apply_gain_out_of_bounds (samples : list Z) (len : N) (gain : float32) :
  (len < Int.SIZE_MOD)%N ->
  (length samples < N.to_nat len)%nat ->
  apply_gain samples len gain = Undefined.
Proof.
  intros Hlen Hcap. rewrite apply_gain_eq by exact Hlen.
  rewrite scale_prefix_short by exact Hcap. reflexivity.
Qed.

Lemma apply_gain_out_of_bounds_witness :
  apply_gain [1000; -1000] 3 two = Undefined.
Proof.
  apply (apply_gain_out_of_bounds [1000; -1000] 3 two).
  - reflexivity.
  - simpl. lia.
Defined.

(** X3. With a gain that is a NaN or an infinity, a call that processes at
    least one sample is undefined: the product of line 5 is a NaN or an
    infinity whatever the sample, and its conversion to [int] has no
    result. *)
Theorem apply_gain_non_finite_gain (samples : list Z) (len : N) (gain : float32) :
  (len < Int.SIZE_MOD)%N ->
  is_finite gain = false ->
  (0 < len)%N ->
  apply_gain samples len gain = Undefined.
Proof.
  intros Hlen Hnf Hpos. rewrite apply_gain_eq by exact Hlen.
  destruct (N.to_nat len) as [|n] eqn:Hn; [lia|]. cbn [scale_prefix].
  destruct samples as [|s l]; [reflexivity|].
  unfold scaled, to_int. rewrite mul_not_finite by exact Hnf. reflexivity.
Qed.

Lemma apply_gain_non_finite_gain_witness :
  apply_gain [0; 5] 2 (S754_infinity false) = Undefined.
Proof.
  apply (apply_gain_non_finite_gain [0; 5] 2 (S754_infinity false)).
  - reflexivity.
  - reflexivity.
  - reflexivity.
Defined.

(** X4. The sign is kept: in a call that returns, with a finite gain that is
    not negative, a [short] sample that is not negative is stored as a value
    that is not negative and one that is not positive as a value that is not
    positive (so 0 stays 0); with a gain that is not positive the signs are
    exchanged. No wrap-around turns a loud sample into one of the other
    sign. *)
Theorem apply_gain_keeps_sign
    (samples : list Z) (len : N) (gain : float32) (out : list Z) (tr : list access)
    (i : N) (s v : Z) :
  (len < Int.SIZE_MOD)%N ->
  returns (apply_gain samples len gain) out tr ->
  (i < len)%N ->
  samples !! N.to_nat i = Some s ->
  out !! N.to_nat i = Some v ->
  Int.is_short s ->
  is_finite gain = true ->
  ((0 <= to_Q gain)%Q -> (0 <= s -> 0 <= v) /\ (s <= 0 -> v <= 0)) /\
  ((to_Q gain <= 0)%Q -> (0 <= s -> v <= 0) /\ (s <= 0 -> 0 <= v)).
Proof.
  intros Hlen Hret Hi Hs Hv Hshort Hfin.
  destruct (apply_gain_sample _ _ _ _ _ i s Hlen Hret Hi Hs) as (z & Hz & Hout).
  rewrite Hv in Hout. injection Hout as ->. rewrite stored_is_clamp.
  destruct (mul_short_sign s gain z Hshort Hfin Hz) as [Hpos Hneg].
  pose proof (clamp_monotone 0 z) as Hc0. pose proof (clamp_monotone z 0) as Hc1.
  change (clamp 0) with 0 in Hc0, Hc1.
  split; intros Hg; [destruct (Hpos Hg) | destruct (Hneg Hg)]; split; intros; auto.
Qed.

Lemma apply_gain_keeps_sign_witness :
  ((0 <= to_Q two)%Q -> (0 <= -1000 -> 0 <= -2000) /\ (-1000 <= 0 -> -2000 <= 0)) /\
  ((to_Q two <= 0)%Q -> (0 <= -1000 -> -2000 <= 0) /\ (-1000 <= 0 -> 0 <= -2000)).
Proof.
  apply (apply_gain_keeps_sign [1000; -1000; 32000; -32000] 4 two
           [2000; -2000; 32767; -32768]
           [Load 0; Store 0; Load 1; Store 1; Load 2; Store 2; Load 3; Store 3]%N 1).
  - reflexivity.
  - reflexivity.
  - reflexivity.
  - reflexivity.
  - reflexivity.
  - unfold Int.is_short, Int.SHRT_MIN, Int.SHRT_MAX. lia.
  - reflexivity.
Defined.

(** X5. Attenuation is safe: with a finite gain of magnitude at most 1, a
    call on a buffer of [short]s that holds at least [length] of them
    returns (every product converts to [int]), and no processed sample has
    grown in magnitude. *)
Theorem apply_gain_attenuation (samples : list Z) (len : N) (gain : float32) :
  (len < Int.SIZE_MOD)%N ->
  Forall Int.is_short samples ->
  (N.to_nat len <= length samples)%nat ->
  is_finite gain = true ->
  (inject_Z (-1) <= to_Q gain <= inject_Z 1)%Q ->
  exists out : list Z,
    returns (apply_gain samples len gain) out (pass_trace 0 (N.to_nat len)) /\
    forall (i : N) (s v : Z),
      (i < len)%N -> samples !! N.to_nat i = Some s -> out !! N.to_nat i = Some v ->
      Z.abs v <= Z.abs s.
Proof.
  intros Hlen Hshort Hcap Hfin Hg. rewrite Forall_lookup in Hshort.
  destruct (scale_prefix_defined gain (N.to_nat len) samples Hcap) as [out Hout].
  { intros j s _ Hs. unfold scaled.
    destruct (mul_short_attenuate s gain (Hshort j s Hs) Hfin Hg) as (z & -> & _).
    eexists; reflexivity. }
  assert (Hret : returns (apply_gain samples len gain) out (pass_trace 0 (N.to_nat len))).
  { unfold returns. rewrite apply_gain_eq, Hout by exact Hlen. reflexivity. }
  exists out. split; [exact Hret|].
  intros i s v Hi Hs Hv.
  destruct (apply_gain_sample _ _ _ _ _ i s Hlen Hret Hi Hs) as (z & Hz & Hlook).
  rewrite Hv in Hlook. injection Hlook as ->. rewrite stored_is_clamp.
  destruct (mul_short_attenuate s gain (Hshort _ s Hs) Hfin Hg) as (z' & Hz' & Hle).
  rewrite Hz in Hz'. injection Hz' as <-.
  pose proof (clamp_abs_le z). lia.
Qed.

Lemma apply_gain_attenuation_witness :
  exists out : list Z,
    returns (apply_gain [100; -7; 32767; -32768] 4 f0_7) out (pass_trace 0 (N.to_nat 4)) /\
    forall (i : N) (s v : Z),
      (i < 4)%N -> [100; -7; 32767; -32768] !! N.to_nat i = Some s ->
      out !! N.to_nat i = Some v ->
      Z.abs v <= Z.abs s.
Proof.
  apply (apply_gain_attenuation [100; -7; 32767; -32768] 4 f0_7).
  - reflexivity.
  - unfold Int.is_short, Int.SHRT_MIN, Int.SHRT_MAX.
    repeat (apply Forall_cons; split; [lia|]). apply Forall_nil. exact I.
  - simpl. lia.
  - reflexivity.
  - split; vm_compute; discriminate.
Defined.

(** X6. Amplification never attenuates: in a call that returns, with a
    finite gain of magnitude at least 1, a processed [short] sample [s] is
    stored as a value of magnitude at least [|s|], or at least 32767 when it
    was clamped. *)
Theorem apply_gain_amplification
    (samples : list Z) (len : N) (gain : float32) (out : list Z) (tr : list access)
    (i : N) (s v : Z) :
  (len < Int.SIZE_MOD)%N ->
  returns (apply_gain samples len gain) out tr ->
  (i < len)%N ->
  samples !! N.to_nat i = Some s ->
  out !! N.to_nat i = Some v ->
  Int.is_short s ->
  is_finite gain = true ->
  (inject_Z 1 <= to_Q gain \/ to_Q gain <= inject_Z (-1))%Q ->
  Z.min (Z.abs s) 32767 <= Z.abs v.
Proof.
  intros Hlen Hret Hi Hs Hv Hshort Hfin Hg.
  destruct (apply_gain_sample _ _ _ _ _ i s Hlen Hret Hi Hs) as (z & Hz & Hout).
  rewrite Hv in Hout. injection Hout as ->. rewrite stored_is_clamp.
  pose proof (mul_short_amplify s gain z Hshort Hfin Hg Hz).
  pose proof (clamp_abs_ge z). lia.
Qed.

Lemma apply_gain_amplification_witness :
  Z.min (Z.abs 32000) 32767 <= Z.abs 32767.
Proof.
  apply (apply_gain_amplification [1000; -1000; 32000; -32000] 4 two
           [2000; -2000; 32767; -32768]
           [Load 0; Store 0; Load 1; Store 1; Load 2; Store 2; Load 3; Store 3]%N 2 32000).
  - reflexivity.
  - reflexivity.
  - reflexivity.
  - reflexivity.
  - reflexivity.
  - unfold Int.is_short, Int.SHRT_MIN, Int.SHRT_MAX. lia.
  - reflexivity.
  - left. vm_compute. discriminate.
Defined.

(** X7. No rounding where none is needed: when the exact product of a
    [short] sample and a finite gain is an integer [K] of magnitude at most
    2^23, line 5 computes exactly [K], and [K] clamped to [-32768, 32767] is
    what is stored, on the one-sample buffer and at every position of a
    returning call that held the sample. *)
Theorem apply_gain_exact_integer_product (s : Z) (gain : float32) (K : Z) :
  Int.is_short s ->
  is_finite gain = true ->
  (inject_Z s * to_Q gain == inject_Z K)%Q ->
  Z.abs K <= 2 ^ 23 ->
  to_int (mul (of_int s) gain) = Some K /\
  returns (apply_gain [s] 1 gain) [clamp K] [Load 0; Store 0]%N /\
  forall (samples : list Z) (len : N) (out : list Z) (tr : list access) (i : N),
    (len < Int.SIZE_MOD)%N ->
    returns (apply_gain samples len gain) out tr ->
    (i < len)%N ->
    samples !! N.to_nat i = Some s ->
    out !! N.to_nat i = Some (clamp K).
Proof.
  intros Hs Hfin Heq HK.
  pose proof (mul_short_exact_integer s gain K Hs Hfin Heq HK) as Hconv.
  assert (Hscaled : scaled gain s = Some (clamp K))
    by (unfold scaled; rewrite Hconv, stored_is_clamp; reflexivity).
  split; [exact Hconv|]. split; [exact (scaled_returns_single s gain _ Hscaled)|].
  intros samples len out tr i Hlen Hret Hi Hsi.
  rewrite (apply_gain_scaled _ _ _ _ _ i s Hlen Hret Hi Hsi). exact Hscaled.
Qed.

Lemma apply_gain_exact_integer_product_witness :
  to_int (mul (of_int 20000) two) = Some 40000 /\
  returns (apply_gain [20000] 1 two) [clamp 40000] [Load 0; Store 0]%N /\
  forall (samples : list Z) (len : N) (out : list Z) (tr : list access) (i : N),
    (len < Int.SIZE_MOD)%N ->
    returns (apply_gain samples len two) out tr ->
    (i < len)%N ->
    samples !! N.to_nat i = Some 20000 ->
    out !! N.to_nat i = Some (clamp 40000).
Proof.
  apply (apply_gain_exact_integer_product 20000 two 40000).
  - unfold Int.is_short, Int.SHRT_MIN, Int.SHRT_MAX. lia.
  - reflexivity.
  - reflexivity.
  - vm_compute. discriminate.
Defined.

(** X8. Phase inversion: with gain -1.0 a call on a buffer of [short]s that
    holds at least [length] of them returns with every processed sample
    negated, except -32768, whose opposite 32768 is clamped to 32767. *)
Theorem apply_gain_minus_one (samples : list Z) (len : N) :
  (len < Int.SIZE_MOD)%N ->
  Forall Int.is_short samples ->
  (N.to_nat len <= length samples)%nat ->
  exists out : list Z,
    returns (apply_gain samples len minus_one) out (pass_trace 0 (N.to_nat len)) /\
    forall (i : N) (s : Z),
      (i < len)%N -> samples !! N.to_nat i = Some s ->
      out !! N.to_nat i = Some (if s =? -32768 then 32767 else - s).
Proof.
  exact (apply_gain_pointwise (fun s => if s =? -32768 then 32767 else - s)
           samples len minus_one scaled_minus_one).
Qed.

Lemma apply_gain_minus_one_witness :
  exists out : list Z,
    returns (apply_gain [5; -32768; 32767; 0] 3 minus_one) out (pass_trace 0 (N.to_nat 3)) /\
    forall (i : N) (s : Z),
      (i < 3)%N -> [5; -32768; 32767; 0] !! N.to_nat i = Some s ->
      out !! N.to_nat i = Some (if s =? -32768 then 32767 else - s).
Proof.
  apply (apply_gain_minus_one [5; -32768; 32767; 0] 3).
  - reflexivity.
  - unfold Int.is_short, Int.SHRT_MIN, Int.SHRT_MAX.
    repeat (apply Forall_cons; split; [lia|]). apply Forall_nil. exact I.
  - simpl. lia.
Defined.

(** X9. Halving truncates toward zero: with gain 0.5 a call on a buffer of
    [short]s that holds at least [length] of them returns with every
    processed sample [s] replaced by the quotient of [s] by 2 rounded toward
    zero (3 becomes 1 and -3 becomes -1, not -2). *)
Theorem apply_gain_half (samples : list Z) (len : N) :
  (len < Int.SIZE_MOD)%N ->
  Forall Int.is_short samples ->
  (N.to_nat len <= length samples)%nat ->
  exists out : list Z,
    returns (apply_gain samples len half) out (pass_trace 0 (N.to_nat len)) /\
    forall (i : N) (s : Z),
      (i < len)%N -> samples !! N.to_nat i = Some s ->
      out !! N.to_nat i = Some (Z.quot s 2).
Proof.
  exact (apply_gain_pointwise (fun s => Z.quot s 2) samples len half scaled_half).
Qed.

Lemma apply_gain_half_witness :
  exists out : list Z,
    returns (apply_gain [3; -3; 32767; -32768] 4 half) out (pass_trace 0 (N.to_nat 4)) /\
    forall (i : N) (s : Z),
      (i < 4)%N -> [3; -3; 32767; -32768] !! N.to_nat i = Some s ->
      out !! N.to_nat i = Some (Z.quot s 2).
Proof.
  apply (apply_gain_half [3; -3; 32767; -32768] 4).
  - reflexivity.
  - unfold Int.is_short, Int.SHRT_MIN, Int.SHRT_MAX.
    repeat (apply Forall_cons; split; [lia|]). apply Forall_nil. exact I.
  - simpl. lia.
Defined.

(** X10. Processing in chunks: a call on the whole of a buffer has the
    effect of a call on its first part followed by a call on the rest. If the
    call on [l1] (all of it) returns [o1] and the call on the first [len2]
    samples of [l2] returns [o2], the call on the first [length l1 + len2]
    samples of [l1 ++ l2] returns [o1 ++ o2]; and when that call returns,
    the two others do, with outputs that make up its output. *)
Theorem apply_gain_chunks (l1 l2 : list Z) (len2 : N) (gain : float32) :
  (N.of_nat (length l1) + len2 < Int.SIZE_MOD)%N ->
  (forall (o1 o2 : list Z) (tr1 tr2 : list access),
     returns (apply_gain l1 (N.of_nat (length l1)) gain) o1 tr1 ->
     returns (apply_gain l2 len2 gain) o2 tr2 ->
     exists tr : list access,
       returns (apply_gain (l1 ++ l2) (N.of_nat (length l1) + len2) gain) (o1 ++ o2) tr) /\
  (forall (out : list Z) (tr : list access),
     returns (apply_gain (l1 ++ l2) (N.of_nat (length l1) + len2) gain) out tr ->
     exists (o1 o2 : list Z) (tr1 tr2 : list access),
       out = o1 ++ o2 /\
       returns (apply_gain l1 (N.of_nat (length l1)) gain) o1 tr1 /\
       returns (apply_gain l2 len2 gain) o2 tr2).
Proof.
  intros Hlen.
  assert (H1 : (N.of_nat (length l1) < Int.SIZE_MOD)%N) by lia.
  assert (H2 : (len2 < Int.SIZE_MOD)%N) by lia.
  assert (Hn : N.to_nat (N.of_nat (length l1) + len2) = (length l1 + N.to_nat len2)%nat) by lia.
  split.
  - intros o1 o2 tr1 tr2 Hr1 Hr2.
    destruct (apply_gain_returns_inv _ _ _ _ _ H1 Hr1) as [Ho1 _].
    destruct (apply_gain_returns_inv _ _ _ _ _ H2 Hr2) as [Ho2 _].
    rewrite Nat2N.id in Ho1.
    eexists. unfold returns. rewrite apply_gain_eq by exact Hlen.
    rewrite Hn, scale_prefix_app, Ho1, Ho2. reflexivity.
  - intros out tr Hret.
    destruct (apply_gain_returns_inv _ _ _ _ _ Hlen Hret) as [Hout _].
    rewrite Hn, scale_prefix_app in Hout.
    destruct (scale_prefix gain (length l1) l1) as [o1|] eqn:Ho1; [|discriminate].
    destruct (scale_prefix gain (N.to_nat len2) l2) as [o2|] eqn:Ho2; [|discriminate].
    injection Hout as <-. exists o1, o2. do 2 eexists. split; [reflexivity|].
    unfold returns. rewrite !apply_gain_eq by assumption.
    rewrite Nat2N.id, Ho1, Ho2. split; reflexivity.
Qed.

Lemma apply_gain_chunks_witness :
  exists tr : list access,
    returns (apply_gain ([1000; -1000] ++ [32000; -32000; 7])
               (N.of_nat (length [1000; -1000]) + 2) two)
            ([2000; -2000] ++ [32767; -32768; 7]) tr.
Proof.
  apply (proj1 (apply_gain_chunks [1000; -1000] [32000; -32000; 7] 2 two ltac:(reflexivity))
           [2000; -2000] [32767; -32768; 7]
           [Load 0; Store 0; Load 1; Store 1]%N [Load 0; Store 0; Load 1; Store 1]%N).
  - reflexivity.
  - reflexivity.
Defined.

(** X11. Truncation toward zero is symmetric: if a call stores [v] for the
    sample [s], with [v] strictly inside the range (not -32768 nor 32767,
    where the clamp is not symmetric), a call with the same gain stores
    [- v] for the sample [- s]. *)
Theorem apply_gain_negated_sample
    (samples samples' : list Z) (len len' : N) (gain : float32)
    (out out' : list Z) (tr tr' : list access) (i i' : N) (s v : Z) :
  (len < Int.SIZE_MOD)%N ->
  (len' < Int.SIZE_MOD)%N ->
  returns (apply_gain samples len gain) out tr ->
  returns (apply_gain samples' len' gain) out' tr' ->
  (i < len)%N ->
  (i' < len')%N ->
  samples !! N.to_nat i = Some s ->
  samples' !! N.to_nat i' = Some (- s) ->
  out !! N.to_nat i = Some v ->
  -32768 < v < 32767 ->
  out' !! N.to_nat i' = Some (- v).
Proof.
  intros Hlen Hlen' Hret Hret' Hi Hi' Hs Hs' Hv Hin.
  rewrite (apply_gain_scaled _ _ _ _ _ i s Hlen Hret Hi Hs) in Hv.
  rewrite (apply_gain_scaled _ _ _ _ _ i' (- s) Hlen' Hret' Hi' Hs').
  exact (scaled_opp gain s v Hv Hin).
Qed.

Lemma apply_gain_negated_sample_witness :
  [2000; -2000; 32767; -32768] !! N.to_nat 1 = Some (- 2000).
Proof.
  apply (apply_gain_negated_sample
           [1000; -1000; 32000; -32000] [1000; -1000; 32000; -32000] 4 4 two
           [2000; -2000; 32767; -32768] [2000; -2000; 32767; -32768]
           [Load 0; Store 0; Load 1; Store 1; Load 2; Store 2; Load 3; Store 3]%N
           [Load 0; Store 0; Load 1; Store 1; Load 2; Store 2; Load 3; Store 3]%N
           0 1 1000 2000).
  - reflexivity.
  - reflexivity.
  - reflexivity.
  - reflexivity.
  - reflexivity.
  - reflexivity.
  - reflexivity.
  - reflexivity.
  - reflexivity.
  - lia.
Defined.

(** X12. The gain keeps the order of the samples: in a call that returns,
    with a finite gain that is not negative, of two processed [short]
    samples the one that is not larger is stored as a value that is not
    larger; with a gain that is not positive the order is reversed. The
    rounding of the product, its truncation and the clamp never let a louder
    sample come out quieter than a softer one of the same sign. *)
Theorem apply_gain_monotone
    (samples : list Z) (len : N) (gain : float32) (out : list Z) (tr : list access)
    (i j : N) (s s' v v' : Z) :
  (len < Int.SIZE_MOD)%N ->
  returns (apply_gain samples len gain) out tr ->
  (i < len)%N -> (j < len)%N ->
  samples !! N.to_nat i = Some s ->
  samples !! N.to_nat j = Some s' ->
  out !! N.to_nat i = Some v ->
  out !! N.to_nat j = Some v' ->
  Int.is_short s -> Int.is_short s' ->
  is_finite gain = true ->
  s <= s' ->
  ((0 <= to_Q gain)%Q -> v <= v') /\ ((to_Q gain <= 0)%Q -> v' <= v).
Proof.
  intros Hlen Hret Hi Hj Hs Hs' Hv Hv' Hsh Hsh' Hfin Hle.
  destruct (apply_gain_sample _ _ _ _ _ i s Hlen Hret Hi Hs) as (z & Hz & Hout).
  destruct (apply_gain_sample _ _ _ _ _ j s' Hlen Hret Hj Hs') as (z' & Hz' & Hout').
  rewrite Hv in Hout. rewrite Hv' in Hout'. injection Hout as ->. injection Hout' as ->.
  rewrite !stored_is_clamp.
  apply to_int_truncate in Hz as (Hf & -> & _). apply to_int_truncate in Hz' as (Hf' & -> & _).
  destruct (truncate_mul_monotone s s' gain Hsh Hsh' Hle Hfin Hf Hf') as [Hup Hdown].
  split; intros Hg; apply clamp_monotone; auto.
Qed.

Lemma apply_gain_monotone_witness :
  ((0 <= to_Q two)%Q -> -2000 <= 32767) /\ ((to_Q two <= 0)%Q -> 32767 <= -2000).
Proof.
  apply (apply_gain_monotone [1000; -1000; 32000; -32000] 4 two
           [2000; -2000; 32767; -32768]
           [Load 0; Store 0; Load 1; Store 1; Load 2; Store 2; Load 3; Store 3]%N
           1 2 (-1000) 32000).
  - reflexivity.
  - reflexivity.
  - reflexivity.
  - reflexivity.
  - reflexivity.
  - reflexivity.
  - reflexivity.
  - reflexivity.
  - unfold Int.is_short, Int.SHRT_MIN, Int.SHRT_MAX. lia.
  - unfold Int.is_short, Int.SHRT_MIN, Int.SHRT_MAX. lia.
  - reflexivity.
  - lia.
Defined.

(** X13. Rounding costs less than one step: when the exact product of a
    [short] sample and a finite gain has magnitude at most 2^23, the product
    of line 5 converts to [int] and the value stored lies between the exact
    product rounded down and rounded up to an integer, both clamped to
    [-32768, 32767]. So the stored value is the exact truncation or its
    neighbour. This holds on the one-sample buffer, whose call returns, and
    at every position of a returning call that held the sample. *)
Theorem apply_gain_within_one_of_exact (s : Z) (gain : float32) :
  Int.is_short s ->
  is_finite gain = true ->
  (inject_Z (- 2 ^ 23) <= inject_Z s * to_Q gain <= inject_Z (2 ^ 23))%Q ->
  (exists v : Z,
     returns (apply_gain [s] 1 gain) [v] [Load 0; Store 0]%N /\
     clamp (Qfloor (inject_Z s * to_Q gain)) <= v <=
     clamp (Qceiling (inject_Z s * to_Q gain))) /\
  forall (samples : list Z) (len : N) (out : list Z) (tr : list access) (i : N) (v : Z),
    (len < Int.SIZE_MOD)%N ->
    returns (apply_gain samples len gain) out tr ->
    (i < len)%N ->
    samples !! N.to_nat i = Some s ->
    out !! N.to_nat i = Some v ->
    clamp (Qfloor (inject_Z s * to_Q gain)) <= v <=
    clamp (Qceiling (inject_Z s * to_Q gain)).
Proof.
  intros Hs Hfin [Hlo Hhi].
  set (x := (inject_Z s * to_Q gain)%Q) in *.
  assert (HA : - 2 ^ 23 <= Qfloor x).
  { rewrite <- (Qfloor_Z (- 2 ^ 23)). apply Qfloor_resp_le. exact Hlo. }
  assert (HB : Qceiling x <= 2 ^ 23).
  { rewrite <- (Qceiling_Z (2 ^ 23)). apply Qceiling_resp_le. exact Hhi. }
  destruct (mul_short_between s gain (Qfloor x) (Qceiling x) Hs Hfin HA HB
              (Qfloor_le x) (Qle_ceiling x)) as (z & Hz & Hzlo & Hzhi).
  assert (Hscaled : scaled gain s = Some (clamp z))
    by (unfold scaled; rewrite Hz, stored_is_clamp; reflexivity).
  assert (Hcl : clamp (Qfloor x) <= clamp z <= clamp (Qceiling x))
    by (split; apply clamp_monotone; assumption).
  split.
  - exists (clamp z). split; [exact (scaled_returns_single s gain _ Hscaled) | exact Hcl].
  - intros samples len out tr i v Hlen Hret Hi Hsi Hv.
    rewrite (apply_gain_scaled _ _ _ _ _ i s Hlen Hret Hi Hsi), Hscaled in Hv.
    injection Hv as <-. exact Hcl.
Qed.

Lemma apply_gain_within_one_of_exact_witness :
  (exists v : Z,
     returns (apply_gain [10] 1 f0_7) [v] [Load 0; Store 0]%N /\
     clamp (Qfloor (inject_Z 10 * to_Q f0_7)) <= v <=
     clamp (Qceiling (inject_Z 10 * to_Q f0_7))) /\
  forall (samples : list Z) (len : N) (out : list Z) (tr : list access) (i : N) (v : Z),
    (len < Int.SIZE_MOD)%N ->
    returns (apply_gain samples len f0_7) out tr ->
    (i < len)%N ->
    samples !! N.to_nat i = Some 10 ->
    out !! N.to_nat i = Some v ->
    clamp (Qfloor (inject_Z 10 * to_Q f0_7)) <= v <=
    clamp (Qceiling (inject_Z 10 * to_Q f0_7)).
Proof.
  apply (apply_gain_within_one_of_exact 10 f0_7).
  - unfold Int.is_short, Int.SHRT_MIN, Int.SHRT_MAX. lia.
  - reflexivity.
  - split; vm_compute; discriminate.
Defined.

(** X14. What does hold of the termination: a call on a buffer that holds
    at least [length] samples, each of whose products with the gain converts
    to [int], returns after exactly one pass of [length] iterations. Its
    accesses are one load and one store at each index 0, 1, ...,
    [length - 1] in this order, [2 * length] in all; allowing the loop more
    iterations changes nothing, and with fewer it has not finished. *)
Theorem apply_gain_one_pass (samples : list Z) (len : N) (gain : float32) :
  (len < Int.SIZE_MOD)%N ->
  (N.to_nat len <= length samples)%nat ->
  (forall (i : N) (s : Z),
     (i < len)%N -> samples !! N.to_nat i = Some s ->
     is_Some (to_int (mul (of_int s) gain))) ->
  exists out : list Z,
    returns (apply_gain samples len gain) out (pass_trace 0 (N.to_nat len)) /\
    length (pass_trace 0 (N.to_nat len)) = (2 * N.to_nat len)%nat /\
    (forall fuel : nat, (N.to_nat len <= fuel)%nat ->
       returns (apply_gain_fuel fuel samples len gain) out (pass_trace 0 (N.to_nat len))) /\
    (forall fuel : nat, (fuel < N.to_nat len)%nat ->
       apply_gain_fuel fuel samples len gain = OutOfFuel).
Proof.
  intros Hlen Hcap Hconv.
  destruct (scale_prefix_defined gain (N.to_nat len) samples Hcap) as [out Hout].
  { intros j s Hj Hs. unfold scaled.
    destruct (Hconv (N.of_nat j) s ltac:(lia)) as [z ->];
      [rewrite Nat2N.id; exact Hs | eexists; reflexivity]. }
  destruct (apply_gain_pass_exact samples len gain out Hlen Hout) as (Hret & Hmore & Hless).
  exists out. split; [exact Hret|]. split; [apply pass_trace_length|].
  split; assumption.
Qed.

Lemma apply_gain_one_pass_witness :
  exists out : list Z,
    returns (apply_gain [1000; -1000; 32000; -32000] 4 two) out (pass_trace 0 (N.to_nat 4)) /\
    length (pass_trace 0 (N.to_nat 4)) = (2 * N.to_nat 4)%nat /\
    (forall fuel : nat, (N.to_nat 4 <= fuel)%nat ->
       returns (apply_gain_fuel fuel [1000; -1000; 32000; -32000] 4 two) out
               (pass_trace 0 (N.to_nat 4))) /\
    (forall fuel : nat, (fuel < N.to_nat 4)%nat ->
       apply_gain_fuel fuel [1000; -1000; 32000; -32000] 4 two = OutOfFuel).
Proof.
  apply (apply_gain_one_pass [1000; -1000; 32000; -32000] 4 two).
  - reflexivity.
  - simpl. lia.
  - intros i s Hi Hs.
    destruct (N.to_nat i) as [|[|[|[|n]]]] eqn:E; [| | | | lia];
      cbn in Hs; injection Hs as <-; eexists; reflexivity.
Defined.

(** X15. Gains of magnitude at most 256 are safe: with such a finite gain,
    a call on a buffer of [short]s that holds at least [length] of them
    returns after exactly one pass of [length] iterations, since no product
    of a [short] and such a gain leaves the range of [int]. *)
Theorem apply_gain_moderate_gain_one_pass (samples : list Z) (len : N) (gain : float32) :
  (len < Int.SIZE_MOD)%N ->
  Forall Int.is_short samples ->
  (N.to_nat len <= length samples)%nat ->
  is_finite gain = true ->
  (inject_Z (-256) <= to_Q gain <= inject_Z 256)%Q ->
  exists out : list Z,
    returns (apply_gain samples len gain) out (pass_trace 0 (N.to_nat len)) /\
    (forall fuel : nat, (N.to_nat len <= fuel)%nat ->
       returns (apply_gain_fuel fuel samples len gain) out (pass_trace 0 (N.to_nat len))) /\
    (forall fuel : nat, (fuel < N.to_nat len)%nat ->
       apply_gain_fuel fuel samples len gain = OutOfFuel).
Proof.
  intros Hlen Hshort Hcap Hfin [Hlo Hhi]. rewrite Forall_lookup in Hshort.
  destruct (scale_prefix_defined gain (N.to_nat len) samples Hcap) as [out Hout].
  { intros j s _ Hs. unfold scaled.
    pose proof (Hshort j s Hs) as Hsh.
    assert (Hx : (inject_Z (- 2 ^ 23) <= inject_Z s * to_Q gain /\
                  inject_Z s * to_Q gain <= inject_Z (2 ^ 23))%Q).
    { unfold Int.is_short, Int.SHRT_MIN, Int.SHRT_MAX in Hsh.
      revert Hlo Hhi. generalize (to_Q gain). intros [n d].
      unfold Qle. cbn [Qmult Qnum Qden inject_Z]. intros Hlo Hhi.
      change (- 2 ^ 23) with (-8388608). change (2 ^ 23) with 8388608.
      pose proof (Pos2Z.is_pos d). split; nia. }
    destruct Hx as [Hxlo Hxhi].
    destruct (mul_short_between s gain (- 2 ^ 23) (2 ^ 23) Hsh Hfin
                ltac:(lia) ltac:(lia) Hxlo Hxhi) as (z & -> & _).
    eexists; reflexivity. }
  exists out. exact (apply_gain_pass_exact samples len gain out Hlen Hout).
Qed.

Lemma apply_gain_moderate_gain_one_pass_witness :
  exists out : list Z,
    returns (apply_gain [32767; -32768; 1000] 3 two) out (pass_trace 0 (N.to_nat 3)) /\
    (forall fuel : nat, (N.to_nat 3 <= fuel)%nat ->
       returns (apply_gain_fuel fuel [32767; -32768; 1000] 3 two) out
               (pass_trace 0 (N.to_nat 3))) /\
    (forall fuel : nat, (fuel < N.to_nat 3)%nat ->
       apply_gain_fuel fuel [32767; -32768; 1000] 3 two = OutOfFuel).
Proof.
  apply (apply_gain_moderate_gain_one_pass [32767; -32768; 1000] 3 two).
  - reflexivity.
  - unfold Int.is_short, Int.SHRT_MIN, Int.SHRT_MAX.
    repeat (apply Forall_cons; split; [lia|]). apply Forall_nil. exact I.
  - simpl. lia.
  - reflexivity.
  - split; vm_compute; discriminate.
Defined.
